(** * Ashlock fingerprints: the grid, the probes, the edges and the reduction

    A shallow embedding of [axelrod/fingerprint.py] and the properties its
    specification states about it.

    Numbers.  The coordinates are Python numbers; they are embedded as
    canonical rationals ([Qc]), so that arithmetic is exact and two equal
    numbers are equal terms (which is how a Python [dict] compares its
    keys).  Rounding of binary floating point is outside this model.

    Exceptions.  A Python call either returns or raises; [result] is the
    error monad that threads this through the comprehensions. *)

From Stdlib Require Import QArith Qcanon Qround Lqa.
From stdpp Require Import base decidable numbers list list_monad option gmap strings pretty.

Local Open Scope Qc_scope.

(** ** Exceptions and the error monad *)

Inductive exn : Type :=
  | ZeroDivisionError
  | KeyError
  | ValueError
  | TypeError
  | AttributeError
  | EngineError (msg : string)
  | IOError (msg : string).

Inductive result (A : Type) : Type :=
  | Ok (a : A)
  | Raise (e : exn).
Arguments Ok {A} a.
Arguments Raise {A} e.

Global Instance result_ret : MRet result := @Ok.
Global Instance result_bind : MBind result := λ A B f m,
  match m with Ok a => f a | Raise e => Raise e end.
Global Instance result_fmap : FMap result := λ A B f m,
  match m with Ok a => Ok (f a) | Raise e => Raise e end.

(** ** Numbers *)

Definition Qc_of_nat (n : nat) : Qc := Qc_of_Z (Z.of_nat n).

(** [math.ceil] and the floor of [v // 1]. *)
Definition ceil (v : Qc) : Z := Qceiling v.
Definition floor (v : Qc) : Z := Qfloor v.

(** [a > b] as the test of an [if]. *)
Definition gtb (a b : Qc) : bool := bool_decide (b < a).

(** Some numbers for the examples. *)
Definition half : Qc := Q2Qc (1 # 2).
Definition quarter : Qc := Q2Qc (1 # 4).
Definition three_quarters : Qc := Q2Qc (3 # 4).

(** ** Point = namedtuple('Point', 'x y') *)

Abbreviation Point := (Qc * Qc)%type (only parsing).
Definition mkPoint (x y : Qc) : Point := (x, y).

(** The builtin [sum] over a tuple: a left fold of [+] from [0]. *)
Definition sum (coordinate : Point) : Qc :=
  fold_left Qcplus [coordinate.1; coordinate.2] 0.

(** [enumerate]. *)
Definition enumerate {A} (l : list A) : list (nat * A) :=
  zip (seq 0 (length l)) l.

(** ** Players

    The strategy classes are the caller's; the two transformers of
    [axelrod.strategy_transformers] build classes from classes, and a
    player is an instance of a class. *)

Section Players.
Context {Strategy : Type}.

Inductive PlayerClass : Type :=
  | Base (s : Strategy)
  | JossAnnTransformer (probability : Qc * Qc) (c : PlayerClass)
  | DualTransformer (c : PlayerClass).

Inductive Player : Type :=
  | Instance (c : PlayerClass).

(** The probabilities a Joss-Ann player was built with. *)
Definition probability_of (p : Player) : option (Qc * Qc) :=
  match p with
  | Instance (JossAnnTransformer pq _) => Some pq
  | _ => None
  end.

(** [create_jossann(coordinate, probe)] *)
Definition create_jossann (coordinate : Point) (probe : PlayerClass) : Player :=
  let '(x, y) := coordinate in
  if gtb (x + y) 1
  then Instance (JossAnnTransformer (1 - y, 1 - x) probe)
  else Instance (JossAnnTransformer (x, y) probe).

(** [create_probes(probe, coordinates)] *)
Definition create_probes (probe : PlayerClass) (coordinates : list Point)
  : list Player :=
  map (λ coordinate, create_jossann coordinate probe) coordinates.
End Players.
Arguments PlayerClass : clear implicits.
Arguments Player : clear implicits.

(** ** numpy.arange and the grid *)

(** The range of [npy_intp], in which the length of an array lies. *)
Definition intp_range (z : Z) : Prop := (- 2 ^ 63 ≤ z ≤ 2 ^ 63 - 1)%Z.

Global Instance intp_range_dec z : Decision (intp_range z).
Proof. unfold intp_range. apply _. Defined.

(** [np.arange(start, stop, step)], by its contract and in exact
    arithmetic: [ceil((stop - start) / step)] values [start + i * step];
    no value when that count is not positive, an error for a zero step
    (the division of the two Python numbers) and an error when the count
    is outside the range of [npy_intp].  What binary64 makes of the count
    and of the values is the subject of the section on binary64 below. *)
Definition np_arange (start stop step : Qc) : result (list Qc) :=
  if decide (step = 0) then Raise ZeroDivisionError
  else if decide (intp_range (ceil ((stop - start) / step))) then
    Ok (map (λ i, start + Qc_of_nat i * step)
            (seq 0 (Z.to_nat (ceil ((stop - start) / step)))))
  else Raise ValueError.

(** [create_coordinates(step)]: the nested generator evaluates the outer
    range once and the inner range once per outer value. *)
Definition create_coordinates (step : Qc) : result (list Point) :=
  js ← np_arange 0 1 step;
  rows ← mapM (λ j, ks ← np_arange 0 1 step;
                    mret (map (λ k, mkPoint j k) ks)) js;
  mret (concat rows).

(** The number of values on one axis of the grid and the values, as the
    two ranges of [create_coordinates] compute them. *)
Definition grid_side (step : Qc) : nat := Z.to_nat (ceil (1 / step)).
Definition grid_axis (step : Qc) : list Qc :=
  map (λ i, Qc_of_nat i * step) (seq 0 (grid_side step)).

(** ** The grid in binary64

    [create_coordinates] on the floats of the code.  A finite binary64
    number is held as the integer count of its units of 2^-1074, the
    least positive binary64 number: 1.0 is [2 ^ 1074], and a count of
    [2 ^ 2098] or more stands for an infinity. *)

Definition b64_one : Z := (2 ^ 1074)%Z.
Definition b64_infinity : Z := (2 ^ 2098)%Z.

(** The quotient [a / d] of two integers, [0 ≤ a] and [0 < d], rounded to
    the nearest integer, a tie going to the even one. *)
Definition round_half_even (a d : Z) : Z :=
  let q := (a / d)%Z in
  let r := (a `mod` d)%Z in
  if (2 * r <? d)%Z then q
  else if (d <? 2 * r)%Z then (q + 1)%Z
  else if Z.even q then q else (q + 1)%Z.

(** The binary64 number nearest to [a / d] units, a tie going to the even
    significand: 53 bits are kept, all of them below 2^53 units, where
    the numbers are one unit apart. *)
Definition b64_round_pos (a d : Z) : Z :=
  let t := Z.max 0 (Z.log2 (a / d) - 52) in
  Z.min b64_infinity (round_half_even a (d * 2 ^ t) * 2 ^ t)%Z.

Definition b64_round (a d : Z) : Z :=
  if decide (a < 0)%Z then (- b64_round_pos (- a) d)%Z else b64_round_pos a d.

(** The conversion of an integer, the product, the quotient by a number
    that is not zero, the sum, and [ceil]. *)
Definition b64_of_int (i : Z) : Z := b64_round (i * b64_one) 1.
Definition b64_mul (x y : Z) : Z := b64_round (x * y) b64_one.
Definition b64_div (x y : Z) : Z :=
  if decide (y < 0)%Z then b64_round (- (x * b64_one)) (- y)
  else b64_round (x * b64_one) y.
Definition b64_add (x y : Z) : Z := b64_round (x + y) 1.
Definition b64_ceil (x : Z) : Z := ((x + b64_one - 1) / b64_one)%Z.

(** [np.arange(0, 1, step)] for a float [step]: the length is the ceiling
    of the float [1 / step], a division of Python numbers, which raises
    for a zero step; a length outside [npy_intp] is refused with
    [ValueError]; the value at index [i] is [0 + i * step], the product
    of the floats [i] and [step]. *)
Definition np_arange_b64 (step : Z) : result (list Z) :=
  if decide (step = 0%Z) then Raise ZeroDivisionError
  else if decide (intp_range (b64_ceil (b64_div b64_one step))) then
    Ok (map (λ i, b64_mul (b64_of_int (Z.of_nat i)) step)
            (seq 0 (Z.to_nat (b64_ceil (b64_div b64_one step)))))
  else Raise ValueError.

(** [create_coordinates(step)] on floats. *)
Definition create_coordinates_b64 (step : Z) : result (list (Z * Z)) :=
  js ← np_arange_b64 step;
  rows ← mapM (λ j, ks ← np_arange_b64 step;
                    mret (map (λ k, (j, k)) ks)) js;
  mret (concat rows).

(** The number of values on one axis, and the value at an index. *)
Definition grid_side_b64 (step : Z) : nat :=
  Z.to_nat (b64_ceil (b64_div b64_one step)).
Definition grid_value_b64 (step : Z) (i : nat) : Z :=
  b64_mul (b64_of_int (Z.of_nat i)) step.

(** Some floats for the examples: 0.5, 0.1 and 1 / 3.0, the last two
    with the significands of [float.hex]. *)
Definition b64_half : Z := (2 ^ 1073)%Z.
Definition b64_tenth : Z := (0x1999999999999a * 2 ^ (1074 - 4 - 52))%Z.
Definition b64_third : Z := (0x15555555555555 * 2 ^ (1074 - 2 - 52))%Z.

(** ** Edges *)

Abbreviation Edge := (nat * nat)%type (only parsing).

(** [create_edges(coordinates)]: the loop appends one edge per coordinate. *)
Definition create_edges (coordinates : list Point) : list Edge :=
  fold_left
    (λ edges '(index, coordinate),
       let edge := if gtb (sum coordinate) 1
                   then (1, index + 2)%nat
                   else (0, index + 2)%nat in
       edges ++ [edge])
    (enumerate coordinates) [].

(** What the loop appends for the coordinate at position [index], in one
    expression. *)
Definition edge_for (index : nat) (coordinate : Point) : Edge :=
  (if bool_decide (1 < coordinate.1 + coordinate.2) then 1%nat else 0%nat,
   (index + 2)%nat).

(** ** Python dictionaries

    A [dict] keeps its keys in insertion order and holds each key once:
    assigning to a key that is present replaces the value in place. *)

Abbreviation pydict K V := (list (K * V)) (only parsing).

Section Dict.
Context {K : Type} `{EqDecision K} {V : Type}.

Fixpoint dict_setitem (d : pydict K V) (k : K) (v : V) : pydict K V :=
  match d with
  | [] => [(k, v)]
  | (k', v') :: d' =>
      if decide (k = k') then (k', v) :: d'
      else (k', v') :: dict_setitem d' k v
  end.

(** [dict(items)] *)
Definition dict (items : list (K * V)) : pydict K V :=
  fold_left (λ d kv, dict_setitem d kv.1 kv.2) items [].

(** [list(d.keys())] *)
Definition dict_keys (d : pydict K V) : list K := d.*1.

Fixpoint dict_lookup (d : pydict K V) (k : K) : option V :=
  match d with
  | [] => None
  | (k', v') :: d' => if decide (k = k') then Some v' else dict_lookup d' k
  end.

(** [d[k]] *)
Definition dict_getitem (d : pydict K V) (k : K) : result V :=
  match dict_lookup d k with
  | Some v => Ok v
  | None => Raise KeyError
  end.
End Dict.

(** [m[k]] on the interaction records, which are keyed by edge. *)
Definition getitem {V} (m : gmap Edge V) (k : Edge) : result V :=
  match m !! k with
  | Some v => Ok v
  | None => Raise KeyError
  end.

(** ** numpy.reshape to two dimensions, row-major *)

Fixpoint chunks {A} (rows cols : nat) (l : list A) : list (list A) :=
  match rows with
  | O => []
  | S rows' => take cols l :: chunks rows' cols (drop cols l)
  end.

(** [np.reshape(l, (rows, cols))]: the sizes must multiply to the number
    of elements; a single [-1] is inferred from the other size, any other
    negative size is refused. *)
Definition np_reshape {A} (l : list A) (shape : Z * Z) : result (list (list A)) :=
  let '(rows, cols) := shape in
  let n := Z.of_nat (length l) in
  if decide (0 ≤ rows ∧ 0 ≤ cols)%Z then
    if decide (rows * cols = n)%Z
    then Ok (chunks (Z.to_nat rows) (Z.to_nat cols) l)
    else Raise ValueError
  else if decide (rows = (-1)%Z ∧ 0 < cols ∧ n `mod` cols = 0)%Z then
    Ok (chunks (Z.to_nat (n / cols)) (Z.to_nat cols) l)
  else if decide (cols = (-1)%Z ∧ 0 < rows ∧ n `mod` rows = 0)%Z then
    Ok (chunks (Z.to_nat rows) (Z.to_nat (n / rows)) l)
  else Raise ValueError.

(** A Python number in a shape: [np.reshape] takes integers only. *)
Inductive pynum : Type :=
  | PyInt (z : Z)
  | PyFloat (v : Qc).

(** [np.reshape(l, shape)] on the Python numbers of [shape]: a float in
    the shape is refused with [TypeError], whatever its value. *)
Definition np_reshape_shape {A} (l : list A) (shape : pynum * pynum)
  : result (list (list A)) :=
  match shape with
  | (PyInt rows, PyInt cols) => np_reshape l (rows, cols)
  | _ => Raise TypeError
  end.

(** ** The reduction *)

(** The interaction records: for each edge, one record per repetition. *)
Abbreviation Interactions I := (gmap (nat * nat) (list I)) (only parsing).

Section Reduction.
(** What the tournament engine records for one repetition, and the two
    functions applied to it: [compute_final_score_per_turn] of
    [axelrod.interaction_utils] and [numpy.mean]. *)
Context {Interaction Score : Type}.
Variable compute_final_score_per_turn : Interaction → Score.
Variable np_mean : list Score → Qc.

(** The score of one edge, when its records are [records]. *)
Definition edge_score (records : list Interaction) : Qc :=
  np_mean (map compute_final_score_per_turn records).

(** [generate_data(interactions, coordinates, edges)] *)
Definition generate_data (interactions : Interactions Interaction)
    (coordinates : list Point) (edges : list Edge)
  : result (pydict Point Qc) :=
  edge_scores ← mapM (λ edge, records ← getitem interactions edge;
                              mret (edge_score records)) edges;
  mret (dict (zip coordinates edge_scores)).
End Reduction.

(** ** The orchestrator: class AshlockFingerprint *)

(** What [plt.imshow] is handed. *)
Record Figure : Type := mkFigure {
  image : list (list Qc);
  cmap : string
}.

(** What happens to a record store. *)
Inductive Event : Type :=
  | Created (name : string)            (* NamedTemporaryFile(mode='w') *)
  | Opened (name : string)             (* open(name, 'w') *)
  | Played (target : option string)    (* SpatialTournament.play *)
  | ReadBack (name : string)           (* read_interactions_from_file *)
  | Closed (name : string)
  | Removed (name : string).

Definition tmp_name (n : nat) : string := "/tmp/tmp" +:+ pretty n.

(** A file object: what [NamedTemporaryFile] and [open] return. *)
Inductive FileObject : Type :=
  | TemporaryFile (name : string)
  | OrdinaryFile (name : string).

Definition file_name (f : FileObject) : string :=
  match f with TemporaryFile name | OrdinaryFile name => name end.

Fixpoint remove_first (name : string) (l : list string) : list string :=
  match l with
  | [] => []
  | x :: l' => if decide (x = name) then l' else x :: remove_first name l'
  end.

(** The events that release a store. *)
Definition release_event (e : Event) : bool :=
  match e with
  | Closed _ | Removed _ => true
  | _ => false
  end.

Section Fingerprint.
Context {Strategy Interaction Score : Type}.
Variable compute_final_score_per_turn : Interaction → Score.
Variable np_mean : list Score → Qc.
(** [axelrod.on_windows] *)
Variable on_windows : bool.
(** [axl.SpatialTournament(players, turns=, repetitions=, edges=)]: the
    exception the constructor raises, if it raises. *)
Variable tournament_refused :
  list (Player Strategy) → nat → nat → list Edge → option exn.
(** The tournament engine: what [play] on [edges] between [players] for
    [turns] turns and [repetitions] repetitions comes to. *)
Variable engine :
  list (Player Strategy) → list Edge → nat → nat → option nat →
  result (Interactions Interaction).
(** What [read_interactions_from_file] makes of a file in which [play]
    wrote these records. *)
Variable read_back : Interactions Interaction → result (Interactions Interaction).

(** The attributes of the object; those assigned after [__init__] are
    absent until then. *)
Record AshlockFingerprint : Type := mkAshlockFingerprint {
  strategy : PlayerClass Strategy;
  probe : PlayerClass Strategy;
  coordinates : option (list Point);
  step : option Qc;
  spatial_tourn :
    option (list (Player Strategy) * nat * nat * list Edge);
  interactions : option (Interactions Interaction);
  data : option (pydict Point Qc)
}.

(** [AshlockFingerprint(strategy, probe)] *)
Definition init (strategy probe : PlayerClass Strategy) : AshlockFingerprint :=
  mkAshlockFingerprint strategy probe None None None None None.

(** The files of the host: the file objects that are open, what [play]
    wrote in each file, and what has happened so far (oldest first).  A
    file object stays in [opened] until it is closed: by the runtime,
    when the frame that holds it is released (see [release_frame]). *)
Record World : Type := mkWorld {
  next_tmp : nat;
  unwritable : list string;
  opened : list string;
  contents : gmap string (Interactions Interaction);
  log : list Event
}.

Record State : Type := mkState {
  self : AshlockFingerprint;
  world : World
}.

(** A method: it returns or raises, and either way leaves a state. *)
Definition M (A : Type) : Type := State → result A * State.

Global Instance M_ret : MRet M := λ A a st, (Ok a, st).
Global Instance M_bind : MBind M := λ A B f m st,
  match m st with
  | (Ok a, st') => f a st'
  | (Raise e, st') => (Raise e, st')
  end.

Definition lift {A} (r : result A) : M A := λ st, (r, st).
Definition get_self : M AshlockFingerprint := λ st, (Ok (self st), st).
Definition set_self (f : AshlockFingerprint → AshlockFingerprint) : M unit :=
  λ st, (Ok (), mkState (f (self st)) (world st)).
Definition set_world (f : World → World) : M unit :=
  λ st, (Ok (), mkState (self st) (f (world st))).
Definition get_world : M World := λ st, (Ok (world st), st).
Definition emit (e : Event) : M unit :=
  set_world (λ w, mkWorld (next_tmp w) (unwritable w) (opened w)
                          (contents w) (log w ++ [e])).

(** Reading an attribute that may not have been assigned yet. *)
Definition attr {A} (a : option A) : result A :=
  match a with Some v => Ok v | None => Raise AttributeError end.

(** Assignments to the attributes. *)
Definition set_coordinates (v : list Point) : M unit :=
  set_self (λ s, mkAshlockFingerprint (strategy s) (probe s) (Some v)
                   (step s) (spatial_tourn s) (interactions s) (data s)).
Definition set_step (v : Qc) : M unit :=
  set_self (λ s, mkAshlockFingerprint (strategy s) (probe s) (coordinates s)
                   (Some v) (spatial_tourn s) (interactions s) (data s)).
Definition set_spatial_tourn
    (v : list (Player Strategy) * nat * nat * list Edge) : M unit :=
  set_self (λ s, mkAshlockFingerprint (strategy s) (probe s) (coordinates s)
                   (step s) (Some v) (interactions s) (data s)).
Definition set_interactions (v : Interactions Interaction) : M unit :=
  set_self (λ s, mkAshlockFingerprint (strategy s) (probe s) (coordinates s)
                   (step s) (spatial_tourn s) (Some v) (data s)).
Definition set_data (v : pydict Point Qc) : M unit :=
  set_self (λ s, mkAshlockFingerprint (strategy s) (probe s) (coordinates s)
                   (step s) (spatial_tourn s) (interactions s) (Some v)).

(** [construct_tournament_elements(self, step)] *)
Definition construct_tournament_elements (step : Qc)
  : M (list Edge * list (Player Strategy)) :=
  probe_coordinates ← lift (create_coordinates step);
  set_coordinates probe_coordinates;;
  let edges := create_edges probe_coordinates in
  s ← get_self;
  let dual := Instance (DualTransformer (strategy s)) in
  let probe_players := create_probes (probe s) probe_coordinates in
  let tournament_players := [Instance (strategy s); dual] ++ probe_players in
  mret (edges, tournament_players).

(** *** The record stores *)

(** [NamedTemporaryFile(mode='w')]: a new, empty, open file. *)
Definition NamedTemporaryFile : M FileObject :=
  w ← get_world;
  let name := tmp_name (next_tmp w) in
  set_world (λ w, mkWorld (S (next_tmp w)) (unwritable w) (name :: opened w)
                          (<[name := ∅]> (contents w)) (log w ++ [Created name]));;
  mret (TemporaryFile name).

(** [open(filename, 'w')]: the file is emptied and open, or the host
    refuses. *)
Definition open_w (filename : string) : M FileObject :=
  w ← get_world;
  if bool_decide (filename ∈ unwritable w)
  then lift (Raise (IOError filename))
  else
    set_world (λ w, mkWorld (next_tmp w) (unwritable w) (filename :: opened w)
                            (<[filename := ∅]> (contents w))
                            (log w ++ [Opened filename]));;
    mret (OrdinaryFile filename).

(** What the runtime does with a file object that is no longer
    referenced: it closes it, and a temporary file is deleted when it is
    closed. *)
Definition finalize (f : FileObject) (w : World) : World :=
  match f with
  | TemporaryFile name =>
      mkWorld (next_tmp w) (unwritable w) (remove_first name (opened w))
        (delete name (contents w)) (log w ++ [Closed name; Removed name])
  | OrdinaryFile name =>
      mkWorld (next_tmp w) (unwritable w) (remove_first name (opened w))
        (contents w) (log w ++ [Closed name])
  end.

(** The release of the frame of a call, whose only reference to a file
    object is the local [outputfile], when it is bound. *)
Definition release_frame (outputfile : option FileObject) (st : State) : State :=
  match outputfile with
  | Some f => mkState (self st) (finalize f (world st))
  | None => st
  end.

(** [SpatialTournament.play(build_results=True, in_memory=True)] and its
    [results.interactions]. *)
Definition play_in_memory (players : list (Player Strategy))
    (edges : list Edge) (turns repetitions : nat) (processes : option nat)
  : M (Interactions Interaction) :=
  emit (Played None);;
  lift (engine players edges turns repetitions processes).

(** [SpatialTournament.play(build_results=False, filename=filename)]: the
    records go to the file. *)
Definition play_to_file (players : list (Player Strategy))
    (edges : list Edge) (turns repetitions : nat) (processes : option nat)
    (filename : string) : M unit :=
  emit (Played (Some filename));;
  records ← lift (engine players edges turns repetitions processes);
  set_world (λ w, mkWorld (next_tmp w) (unwritable w) (opened w)
                          (<[filename := records]> (contents w)) (log w)).

(** [read_interactions_from_file(filename)] *)
Definition read_interactions_from_file (filename : string)
  : M (Interactions Interaction) :=
  emit (ReadBack filename);;
  w ← get_world;
  match contents w !! filename with
  | Some written => lift (read_back written)
  | None => lift (Raise (IOError filename))
  end.

(** The truth value of [filename]: [None] and the empty string are false. *)
Definition truthy (filename : option string) : bool :=
  match filename with
  | Some name => negb (bool_decide (name = ""))
  | None => false
  end.

(** The body of [fingerprint(self, turns, repetitions, step, processes,
    filename)], in two parts.  The first is the [if] that chooses where the
    records go; its result is the local [outputfile], which is not bound
    for [in_memory = True]. *)
Definition choose_store (filename : option string) : M (option FileObject) :=
  if on_windows && bool_decide (filename = None) then mret None
  else if truthy filename then
    outputfile ← open_w (default "" filename); mret (Some outputfile)
  else
    outputfile ← NamedTemporaryFile; mret (Some outputfile).

(** The second is the rest of the body: build the elements, construct the
    tournament, play, read the records back when they went to a file, and
    reduce.  [filename'] is [outputfile.name], or [None] in memory. *)
Definition after_store (turns repetitions : nat) (step : Qc)
    (processes : option nat) (filename' : option string)
  : M (pydict Point Qc) :=
  '(edges, tourn_players) ← construct_tournament_elements step;
  set_step step;;
  lift (match tournament_refused tourn_players turns repetitions edges with
        | Some e => Raise e
        | None => Ok ()
        end);;
  set_spatial_tourn (tourn_players, turns, repetitions, edges);;
  (match filename' with
   | None =>
       records ← play_in_memory tourn_players edges turns repetitions processes;
       set_interactions records
   | Some name =>
       play_to_file tourn_players edges turns repetitions processes name;;
       records ← read_interactions_from_file name;
       set_interactions records
   end);;
  s ← get_self;
  records ← lift (attr (interactions s));
  coords ← lift (attr (coordinates s));
  d ← lift (generate_data compute_final_score_per_turn np_mean
              records coords edges);
  set_data d;;
  mret d.

(** A call of [fingerprint]: the body, and then what becomes of its
    frame.  When the body returns, the frame is released and with it the
    file object of [outputfile].  When the body raises, the traceback of
    the exception keeps the frame, and the file object stays as it is
    until the exception is dropped. *)
Definition fingerprint (turns repetitions : nat) (step : Qc)
    (processes : option nat) (filename : option string)
  : M (pydict Point Qc) :=
  λ st,
    match choose_store filename st with
    | (Raise e, st1) => (Raise e, st1)
    | (Ok outputfile, st1) =>
        match after_store turns repetitions step processes
                (file_name <$> outputfile) st1 with
        | (Ok d, st2) => (Ok d, release_frame outputfile st2)
        | (Raise e, st2) => (Raise e, st2)
        end
    end.

(** The local [outputfile] of a call from the state [st]. *)
Definition outputfile_of (filename : option string) (st : State)
  : option FileObject :=
  match choose_store filename st with
  | (Ok outputfile, _) => outputfile
  | (Raise _, _) => None
  end.

(** The state once the caller has handled the exception that a call from
    [st] raised, ending in [st'], and has dropped it. *)
Definition exception_dropped (filename : option string) (st st' : State)
  : State :=
  release_frame (outputfile_of filename st) st'.

(** The local [ordered_data] of [plot]: the scores in the order of
    [self.coordinates]. *)
Definition ordered_data (s : AshlockFingerprint) (coords : list Point)
  : result (list Qc) :=
  mapM (λ coord, d ← attr (data s); dict_getitem d coord) coords.

(** [plot(self, col_map)]: the array handed to [plt.imshow].  [size] is
    [(1 / self.step) // 1]: a float, since [/] is the true division. *)
Definition plot (s : AshlockFingerprint) (col_map : string) : result Figure :=
  step ← attr (step s);
  size ← (if decide (step = 0) then Raise ZeroDivisionError
          else Ok (PyFloat (Qc_of_Z (floor (1 / step)))));
  coords ← attr (coordinates s);
  scores ← ordered_data s coords;
  plotting_data ← np_reshape_shape scores (size, size);
  mret (mkFigure plotting_data col_map).

(** The roster of [st] for the coordinates [coords]. *)
Definition roster_of (st : State) (coords : list Point)
  : list (Player Strategy) :=
  [Instance (strategy (self st));
   Instance (DualTransformer (strategy (self st)))]
  ++ create_probes (probe (self st)) coords.

(** The state once the temporary file is created. *)
Definition with_temporary_file (st : State) : State :=
  mkState (self st)
    (mkWorld (S (next_tmp (world st))) (unwritable (world st))
       (tmp_name (next_tmp (world st)) :: opened (world st))
       (<[tmp_name (next_tmp (world st)) := ∅]> (contents (world st)))
       (log (world st) ++ [Created (tmp_name (next_tmp (world st)))])).

(** The state once [open(filename, 'w')] returned. *)
Definition with_output_file (filename : string) (st : State) : State :=
  mkState (self st)
    (mkWorld (next_tmp (world st)) (unwritable (world st))
       (filename :: opened (world st))
       (<[filename := ∅]> (contents (world st)))
       (log (world st) ++ [Opened filename])).

(** The state once [self.coordinates] is assigned. *)
Definition with_coordinates (coords : list Point) (st : State) : State :=
  mkState
    (mkAshlockFingerprint (strategy (self st)) (probe (self st)) (Some coords)
       (step (self st)) (spatial_tourn (self st)) (interactions (self st))
       (data (self st)))
    (world st).

(** The attributes once the elements are built and [self.step] is
    assigned, before the tournament is constructed. *)
Definition stepped (stp : Qc) (coords : list Point) (s : AshlockFingerprint)
  : AshlockFingerprint :=
  mkAshlockFingerprint (strategy s) (probe s) (Some coords) (Some stp)
    (spatial_tourn s) (interactions s) (data s).

(** The attributes once the tournament is constructed and
    [self.spatial_tourn] is assigned, before it is played. *)
Definition prepared (turns repetitions : nat) (stp : Qc) (coords : list Point)
    (s : AshlockFingerprint) : AshlockFingerprint :=
  mkAshlockFingerprint (strategy s) (probe s) (Some coords) (Some stp)
    (Some ([Instance (strategy s); Instance (DualTransformer (strategy s))]
           ++ create_probes (probe s) coords,
           turns, repetitions, create_edges coords))
    (interactions s) (data s).

(** The attributes once the records are assigned and reduced: [self.data]
    is assigned only when the reduction returns. *)
Definition reduced (records : Interactions Interaction)
    (r : result (pydict Point Qc)) (s : AshlockFingerprint)
  : AshlockFingerprint :=
  mkAshlockFingerprint (strategy s) (probe s) (coordinates s) (step s)
    (spatial_tourn s) (Some records)
    (match r with Ok d => Some d | Raise _ => data s end).

(** The files once [play] was called: [written] is what the engine
    returned, if it did; with a file, the records are then in it and it
    was read back. *)
Definition world_played (filename' : option string)
    (written : option (Interactions Interaction)) (w : World) : World :=
  match filename', written with
  | None, _ =>
      mkWorld (next_tmp w) (unwritable w) (opened w) (contents w)
        (log w ++ [Played None])
  | Some name, None =>
      mkWorld (next_tmp w) (unwritable w) (opened w) (contents w)
        (log w ++ [Played (Some name)])
  | Some name, Some records =>
      mkWorld (next_tmp w) (unwritable w) (opened w)
        (<[name := records]> (contents w))
        (log w ++ [Played (Some name); ReadBack name])
  end.

(** The records that reach the reduction: those of the engine in memory,
    those read back with a file. *)
Definition records_read (filename' : option string)
    (written : Interactions Interaction) : result (Interactions Interaction) :=
  match filename' with
  | None => Ok written
  | Some _ => read_back written
  end.
End Fingerprint.

(** ** Values for the examples *)

(** A mean for the examples: the sum over the count. *)
Definition mean_of (l : list Qc) : Qc :=
  fold_right Qcplus 0 l / Qc_of_nat (length l).

(** The grid of step 1/2 and scores for it. *)
Definition example_coordinates : list Point :=
  [(0, 0); (0, half); (half, 0); (half, half)].
Definition example_data : pydict Point Qc :=
  [((0, 0), Qc_of_nat 1); ((0, half), Qc_of_nat 2);
   ((half, 0), Qc_of_nat 3); ((half, half), Qc_of_nat 4)].
(** Records for two edges, one repetition each, an interaction being its
    final score per turn. *)
Definition example_interactions : gmap (nat * nat) (list Qc) :=
  {[ (0, 2)%nat := [Qc_of_nat 1]; (0, 3)%nat := [Qc_of_nat 3] ]}.
(** An engine that records one repetition, of score 1, for every edge,
    and one that fails. *)
Definition example_engine (players : list (Player string))
    (edges : list (nat * nat)) (turns repetitions : nat)
    (processes : option nat) : result (gmap (nat * nat) (list Qc)) :=
  Ok (list_to_map (map (λ edge, (edge, [Qc_of_nat 1])) edges)).
Definition failing_engine (players : list (Player string))
    (edges : list (nat * nat)) (turns repetitions : nat)
    (processes : option nat) : result (gmap (nat * nat) (list Qc)) :=
  Raise (EngineError "play failed").
(** A constructor that accepts every tournament. *)
Definition no_refusal (players : list (Player string)) (turns repetitions : nat)
    (edges : list (nat * nat)) : option exn := None.
Definition example_object (coords : list Point)
  : @AshlockFingerprint string unit :=
  mkAshlockFingerprint (Base "Strategy") (Base "Probe") (Some coords)
    (Some half) None None (Some example_data).

(** A fresh object on a host with no file. *)
Definition example_state : @State string Qc :=
  mkState (init (Base "Strategy") (Base "Probe")) (mkWorld 0 [] [] ∅ []).

(** * Properties *)

(** ** Arithmetic on canonical rationals *)

(** Moves a goal on [Qc] to [Q], where [lra] decides it. *)
Ltac qc_to_q :=
  repeat match goal with
  | H : context [Qcle _ _] |- _ => unfold Qcle in H
  | H : context [Qclt _ _] |- _ => unfold Qclt in H
  end;
  unfold Qcle, Qclt;
  try apply Qc_is_canon;
  unfold Qcminus, Qcplus, Qcopp, Qcmult in *; simpl this in *;
  rewrite ?Qred_correct in *.

Ltac qc_lra := qc_to_q; lra.

(** Decides a closed comparison of rationals by evaluation. *)
Ltac qc_eval :=
  repeat split;
  first [ apply Qc_is_canon; vm_compute; reflexivity
        | vm_compute; first [ reflexivity | discriminate ] ].

Lemma gtb_true a b : gtb a b = true ↔ b < a.
Proof. unfold gtb. apply bool_decide_eq_true. Qed.

Lemma gtb_false a b : gtb a b = false ↔ ¬ b < a.
Proof. unfold gtb. apply bool_decide_eq_false. Qed.

(** The builtin [sum] adds the two components. *)
Lemma sum_components (x y : Qc) : sum (x, y) = x + y.
Proof. unfold sum. simpl. ring. Qed.

(** ** The probe transform *)

Section ProbeTransform.
Context {Strategy : Type}.
Implicit Types (probe : PlayerClass Strategy) (x y p q : Qc).

Lemma create_jossann_folded x y probe :
  1 < x + y →
  create_jossann (x, y) probe = Instance (JossAnnTransformer (1 - y, 1 - x) probe).
Proof. intros H. unfold create_jossann. by rewrite (proj2 (gtb_true _ _) H). Qed.

Lemma create_jossann_unfolded x y probe :
  ¬ 1 < x + y →
  create_jossann (x, y) probe = Instance (JossAnnTransformer (x, y) probe).
Proof. intros H. unfold create_jossann. by rewrite (proj2 (gtb_false _ _) H). Qed.

(** C1: for a coordinate of the unit square the probe is built with
    (1 - y, 1 - x) when x + y > 1 and with (x, y) otherwise, and either
    way both parameters lie in [0, 1]. *)
Theorem create_jossann_parameters x y probe :
  0 ≤ x ≤ 1 → 0 ≤ y ≤ 1 →
  (1 < x + y →
     create_jossann (x, y) probe
     = Instance (JossAnnTransformer (1 - y, 1 - x) probe)) ∧
  (¬ 1 < x + y →
     create_jossann (x, y) probe
     = Instance (JossAnnTransformer (x, y) probe)) ∧
  ∃ p q, probability_of (create_jossann (x, y) probe) = Some (p, q)
         ∧ 0 ≤ p ≤ 1 ∧ 0 ≤ q ≤ 1.
Proof.
  intros [Hx0 Hx1] [Hy0 Hy1].
  split; [apply create_jossann_folded|].
  split; [apply create_jossann_unfolded|].
  destruct (decide (1 < x + y)) as [H|H].
  - exists (1 - y), (1 - x). rewrite create_jossann_folded by done.
    repeat split; qc_lra.
  - exists x, y. rewrite create_jossann_unfolded by done. done.
Qed.

(** C7: the parameters a probe is built with sum to at most 1, so
    building a probe from them again gives the same probe: the rule
    applied twice is the rule applied once. *)
Theorem canonicalization_idempotent x y probe :
  ∃ p q, probability_of (create_jossann (x, y) probe) = Some (p, q)
         ∧ p + q ≤ 1
         ∧ create_jossann (p, q) probe = create_jossann (x, y) probe.
Proof.
  destruct (decide (1 < x + y)) as [H|H].
  - exists (1 - y), (1 - x). rewrite (create_jossann_folded x y) by done.
    assert (1 - y + (1 - x) ≤ 1) as Hle by qc_lra.
    repeat split; [done|].
    apply create_jossann_unfolded. by apply Qcle_not_lt.
  - exists x, y. rewrite create_jossann_unfolded by done.
    repeat split. by apply Qcnot_lt_le.
Qed.
End ProbeTransform.

(** A coordinate above the diagonal is folded, and the result is in the
    unit square. *)
Lemma create_jossann_parameters_witness :
  (0 ≤ three_quarters ≤ 1) ∧ (0 ≤ half ≤ 1) ∧
  ((1 < three_quarters + half →
      create_jossann (three_quarters, half) (Base 0%nat)
      = Instance (JossAnnTransformer (1 - half, 1 - three_quarters) (Base 0%nat))) ∧
   (¬ 1 < three_quarters + half →
      create_jossann (three_quarters, half) (Base 0%nat)
      = Instance (JossAnnTransformer (three_quarters, half) (Base 0%nat))) ∧
   ∃ p q, probability_of (create_jossann (three_quarters, half) (Base 0%nat))
          = Some (p, q) ∧ 0 ≤ p ≤ 1 ∧ 0 ≤ q ≤ 1).
Proof.
  split; [qc_eval|]. split; [qc_eval|].
  apply (create_jossann_parameters three_quarters half (Base 0%nat)); qc_eval.
Defined.

(** ** The pairing builder *)

Lemma create_edges_loop (acc : list Edge) (k : nat) (l : list Point) :
  fold_left
    (λ edges '(index, coordinate),
       let edge := if gtb (sum coordinate) 1
                   then (1, index + 2)%nat
                   else (0, index + 2)%nat in
       edges ++ [edge])
    (zip (seq k (length l)) l) acc
  = acc ++ imap (λ i, edge_for (k + i)) l.
Proof.
  revert acc k. induction l as [|[x y] l IH]; intros acc k; simpl.
  - by rewrite app_nil_r.
  - rewrite IH, <-app_assoc. f_equal. simpl. f_equal.
    + unfold edge_for, gtb. rewrite sum_components, Nat.add_0_r. simpl.
      by destruct (bool_decide (1 < x + y)).
    + apply imap_ext. intros i c _. simpl. f_equal. lia.
Qed.

Lemma create_edges_imap (coordinates : list Point) :
  create_edges coordinates = imap edge_for coordinates.
Proof. unfold create_edges, enumerate. by rewrite create_edges_loop. Qed.

(** C2: [create_edges] returns one edge per coordinate, in order; the edge
    at position i is (source, i + 2) with source 1 when the components sum
    to strictly more than 1 and source 0 otherwise; a sum of exactly 1, as
    for (0.5, 0.5), gives source 0. *)
Theorem create_edges_spec (coordinates : list Point) :
  length (create_edges coordinates) = length coordinates
  ∧ (∀ i x y, coordinates !! i = Some (x, y) →
       create_edges coordinates !! i
       = Some (if bool_decide (1 < x + y) then 1%nat else 0%nat, (i + 2)%nat))
  ∧ (∀ i x y, coordinates !! i = Some (x, y) → x + y = 1 →
       create_edges coordinates !! i = Some (0%nat, (i + 2)%nat))
  ∧ create_edges [(half, half)] = [(0%nat, 2%nat)].
Proof.
  rewrite create_edges_imap. split; [apply length_imap|].
  split; [|split].
  - intros i x y Hi. by rewrite list_lookup_imap, Hi.
  - intros i x y Hi Hsum. rewrite list_lookup_imap, Hi. simpl.
    unfold edge_for. simpl. rewrite Hsum.
    by rewrite bool_decide_eq_false_2.
  - reflexivity.
Qed.

(** The four coordinates of step 1/2 and one above the diagonal. *)
Lemma create_edges_spec_witness :
  length (create_edges (example_coordinates ++ [(three_quarters, half)])) = 5%nat
  ∧ create_edges (example_coordinates ++ [(three_quarters, half)]) !! 3%nat
    = Some (0%nat, 5%nat)
  ∧ create_edges (example_coordinates ++ [(three_quarters, half)]) !! 4%nat
    = Some (1%nat, 6%nat).
Proof.
  destruct (create_edges_spec (example_coordinates ++ [(three_quarters, half)]))
    as (Hlen & Hedge & Hone & _).
  split; [exact Hlen|]. split.
  - apply (Hone 3%nat half half); [reflexivity|]. qc_eval.
  - apply (Hedge 4%nat three_quarters half). reflexivity.
Defined.

(** ** The grid *)

Lemma mapM_Ok {A B} (g : A → B) (l : list A) :
  mapM (M := result) (λ a, Ok (g a)) l = Ok (map g l).
Proof. induction l as [|a l IH]; simpl; [done|]. by rewrite IH. Qed.

Lemma mapM_result_ext {A B} (f g : A → result B) (l : list A) :
  (∀ a, f a = g a) → mapM f l = mapM g l.
Proof. intros Hfg. induction l as [|a l IH]; simpl; [done|]. by rewrite Hfg, IH. Qed.

Lemma mapM_result_cons {A B} (f : A → result B) (a : A) (l : list A) :
  mapM f (a :: l) = b ← f a; bs ← mapM f l; mret (b :: bs).
Proof. reflexivity. Qed.

Lemma getitem_Some {V} (m : gmap (nat * nat) V) k v :
  m !! k = Some v → getitem m k = Ok v.
Proof. intros H. unfold getitem. by rewrite H. Qed.

Lemma getitem_None {V} (m : gmap (nat * nat) V) k :
  m !! k = None → getitem m k = Raise KeyError.
Proof. intros H. unfold getitem. by rewrite H. Qed.

Lemma concat_mjoin {A} (ls : list (list A)) : concat ls = mjoin ls.
Proof. induction ls as [|l ls IH]; simpl; [done|]. by rewrite IH. Qed.

Lemma np_arange_unit (step : Qc) :
  step ≠ 0 → intp_range (ceil (1 / step)) →
  np_arange 0 1 step
  = Ok (map (λ i, Qc_of_nat i * step) (seq 0 (Z.to_nat (ceil (1 / step))))).
Proof.
  intros Hstep Hrange. unfold np_arange. rewrite decide_False by done.
  replace (1 - 0) with 1 by ring. rewrite decide_True by done. f_equal.
  apply map_ext. intros i. ring.
Qed.

Lemma create_coordinates_ok (step : Qc) :
  step ≠ 0 → intp_range (ceil (1 / step)) →
  create_coordinates step
  = Ok (concat (map (λ j, map (λ k, (j, k)) (grid_axis step)) (grid_axis step))).
Proof.
  intros Hstep Hrange. unfold create_coordinates.
  rewrite np_arange_unit by done. fold (grid_side step). fold (grid_axis step).
  change (mbind ?f (Ok ?a)) with (f a). cbv beta.
  unfold mret, result_ret, mkPoint.
  rewrite (mapM_result_ext _ (λ j, Ok (map (λ k, (j, k)) (grid_axis step))))
    by done.
  by rewrite mapM_Ok.
Qed.

(** [create_coordinates] returns only for a non-zero step whose count is
    in range. *)
Lemma create_coordinates_inv (step : Qc) (coords : list (Qc * Qc)) :
  create_coordinates step = Ok coords →
  step ≠ 0 ∧ intp_range (ceil (1 / step)).
Proof.
  unfold create_coordinates, np_arange. replace (1 - 0) with 1 by ring.
  destruct (decide (step = 0)); [done|].
  by destruct (decide (intp_range (ceil (1 / step)))).
Qed.

(** Closes the two conditions of [create_coordinates_ok] on a number. *)
Ltac grid_conditions :=
  first [ discriminate | (vm_compute; split; discriminate) ].

Lemma grid_axis_length step : length (grid_axis step) = grid_side step.
Proof. unfold grid_axis. by rewrite length_map, length_seq. Qed.

Lemma grid_axis_lookup step i :
  (i < grid_side step)%nat → grid_axis step !! i = Some (Qc_of_nat i * step).
Proof.
  intros Hi. unfold grid_axis. rewrite list_lookup_fmap.
  by rewrite lookup_seq_lt.
Qed.

(** ** The grid in binary64 *)

Section Binary64.
Local Open Scope Z_scope.
Implicit Types (a d i j k : Z).

Lemma round_half_even_le a d M :
  0 < d → a ≤ d * M → round_half_even a d ≤ M.
Proof.
  intros Hd Ha. unfold round_half_even.
  pose proof (Z.div_mod a d ltac:(lia)) as Hdm.
  pose proof (Z.mod_pos_bound a d Hd) as Hr.
  set (q := a / d) in *. set (r := a `mod` d) in *.
  assert (q ≤ M) by nia.
  destruct (Z.ltb_spec (2 * r) d); [done|].
  assert (q < M) by nia.
  destruct (Z.ltb_spec d (2 * r)); [lia|]. destruct (Z.even q); lia.
Qed.

Lemma round_half_even_below_half a d M :
  0 < d → 2 * a < d * (2 * M + 1) → round_half_even a d ≤ M.
Proof.
  intros Hd Ha. unfold round_half_even.
  pose proof (Z.div_mod a d ltac:(lia)) as Hdm.
  pose proof (Z.mod_pos_bound a d Hd) as Hr.
  set (q := a / d) in *. set (r := a `mod` d) in *.
  assert (q ≤ M) by nia.
  destruct (Z.ltb_spec (2 * r) d); [done|].
  assert (q < M) by nia.
  destruct (Z.ltb_spec d (2 * r)); [lia|]. destruct (Z.even q); lia.
Qed.

Lemma round_half_even_ge a d M :
  0 < d → d * M ≤ a → M ≤ round_half_even a d.
Proof.
  intros Hd Ha. unfold round_half_even.
  pose proof (Z.div_mod a d ltac:(lia)) as Hdm.
  pose proof (Z.mod_pos_bound a d Hd) as Hr.
  set (q := a / d) in *. set (r := a `mod` d) in *.
  assert (M ≤ q) by nia.
  destruct (Z.ltb_spec (2 * r) d); [done|].
  destruct (Z.ltb_spec d (2 * r)); [lia|]. destruct (Z.even q); lia.
Qed.

Lemma round_half_even_exact d M : 0 < d → round_half_even (M * d) d = M.
Proof.
  intros Hd. unfold round_half_even.
  rewrite Z.div_mul, Z.mod_mul by lia.
  by destruct (Z.ltb_spec (2 * 0) d); [|lia].
Qed.

Lemma pow2_pos j : 0 < 2 ^ j ∨ j < 0.
Proof. destruct (decide (0 ≤ j)); [left; by apply Z.pow_pos_nonneg|right; lia]. Qed.

Lemma pow2_split j t : 0 ≤ t ≤ j → 2 ^ j = 2 ^ (j - t) * 2 ^ t.
Proof. intros H. rewrite <-Z.pow_add_r by lia. f_equal. lia. Qed.

(** The exponent of the rounding. *)
Lemma log2_div_bounds a d :
  0 < d → 0 < a / d →
  d * 2 ^ Z.log2 (a / d) ≤ a ∧ a < d * 2 ^ (Z.log2 (a / d) + 1).
Proof.
  intros Hd Hq. destruct (Z.log2_spec (a / d) Hq) as [Hlo Hhi].
  pose proof (Z.mul_div_le a d Hd). pose proof (Z.mul_succ_div_gt a d Hd).
  replace (Z.succ (Z.log2 (a / d))) with (Z.log2 (a / d) + 1) in Hhi by lia.
  split; nia.
Qed.

Lemma b64_round_pos_nonneg a d : 0 ≤ a → 0 < d → 0 ≤ b64_round_pos a d.
Proof.
  intros Ha Hd. unfold b64_round_pos.
  set (t := Z.max 0 (Z.log2 (a / d) - 52)).
  assert (0 < 2 ^ t) by (apply Z.pow_pos_nonneg; lia).
  apply Z.min_glb; [done|]. apply Z.mul_nonneg_nonneg; [|lia].
  apply round_half_even_ge; lia.
Qed.

Lemma b64_round_pos_le_pow2 a d j :
  0 ≤ a → 0 < d → 0 ≤ j → a ≤ d * 2 ^ j → b64_round_pos a d ≤ 2 ^ j.
Proof.
  intros Ha Hd Hj Hle. unfold b64_round_pos.
  set (t := Z.max 0 (Z.log2 (a / d) - 52)).
  assert (0 < 2 ^ t) by (apply Z.pow_pos_nonneg; lia).
  etrans; [apply Z.le_min_r|].
  destruct (decide (t ≤ j)) as [Htj|Htj].
  - rewrite (pow2_split j t) by lia.
    apply Z.mul_le_mono_nonneg_r; [lia|].
    apply round_half_even_le; [lia|].
    rewrite (pow2_split j t) in Hle by lia. lia.
  - exfalso.
    assert (0 < a / d) as Hq.
    { destruct (decide (0 < a / d)); [done|].
      unfold t in Htj. rewrite Z.log2_nonpos in Htj by lia. lia. }
    destruct (log2_div_bounds a d Hd Hq) as [Hlo _].
    assert (2 ^ j < 2 ^ Z.log2 (a / d)) by (apply Z.pow_lt_mono_r; lia).
    nia.
Qed.

Lemma b64_round_pos_ge_pow2 a d j :
  0 < d → 0 ≤ j ≤ 2098 → d * 2 ^ j ≤ a → 2 ^ j ≤ b64_round_pos a d.
Proof.
  intros Hd Hj Hle. unfold b64_round_pos.
  assert (0 < 2 ^ j) by (apply Z.pow_pos_nonneg; lia).
  assert (2 ^ j ≤ a / d) as Hq by (apply Z.div_le_lower_bound; lia).
  assert (j ≤ Z.log2 (a / d)) as HL by (apply Z.log2_le_pow2; lia).
  destruct (log2_div_bounds a d Hd ltac:(lia)) as [Hlo _].
  set (L := Z.log2 (a / d)) in *. set (t := Z.max 0 (L - 52)).
  assert (0 < 2 ^ t) by (apply Z.pow_pos_nonneg; lia).
  apply Z.min_glb; [apply Z.pow_le_mono_r; lia|].
  trans (2 ^ L); [apply Z.pow_le_mono_r; lia|].
  rewrite (pow2_split L t) by lia.
  apply Z.mul_le_mono_nonneg_r; [lia|].
  apply round_half_even_ge; [lia|].
  rewrite (pow2_split L t) in Hlo by lia. lia.
Qed.

(** A quotient below [bound + half], where [half] is half the distance
    from [bound] to the next number, is rounded to [bound] at most:
    [bound] is [M * 2 ^ t], on the grid of the numbers of exponent [t],
    and is a power of two at least. *)
Lemma b64_round_pos_stays a d M t e :
  0 ≤ a → 0 < d → 0 ≤ e → t = Z.max 0 (e - 52) → 2 ^ e ≤ M * 2 ^ t →
  M * 2 ^ t < 2 ^ (e + 1) → 2 * a < d * 2 ^ t * (2 * M + 1) →
  b64_round_pos a d ≤ M * 2 ^ t.
Proof.
  intros Ha Hd He Ht Hlo Hhi Hlt.
  assert (0 < 2 ^ t) by (apply Z.pow_pos_nonneg; lia).
  assert (0 < 2 ^ e) by (apply Z.pow_pos_nonneg; lia).
  destruct (decide (2 ^ e ≤ a / d)) as [Hq|Hq].
  - assert (a / d < 2 ^ (e + 1)) as Hq'.
    { apply Z.div_lt_upper_bound; [done|].
      rewrite (pow2_split (e + 1) t) in Hhi |- * by lia.
      set (R := 2 ^ (e + 1 - t)) in *.
      assert (M + 1 ≤ R) by nia.
      assert ((M + 1) * 2 ^ t ≤ R * 2 ^ t)
        by (apply Z.mul_le_mono_nonneg_r; lia).
      nia. }
    assert (Z.log2 (a / d) = e) as HL by (apply Z.log2_unique; lia).
    unfold b64_round_pos. rewrite HL, <-Ht.
    etrans; [apply Z.le_min_r|].
    apply Z.mul_le_mono_nonneg_r; [lia|].
    apply round_half_even_below_half; lia.
  - trans (2 ^ e); [|done].
    apply b64_round_pos_le_pow2; [done..|].
    pose proof (Z.mul_succ_div_gt a d Hd). nia.
Qed.
Lemma b64_round_nonneg a d : 0 ≤ a → b64_round a d = b64_round_pos a d.
Proof. intros Ha. unfold b64_round. by rewrite decide_False by lia. Qed.

(** An integer below 2^53 is a binary64 number. *)
Lemma b64_of_int_exact i : 0 ≤ i < 2 ^ 53 → b64_of_int i = i * b64_one.
Proof.
  intros Hi. unfold b64_of_int.
  rewrite b64_round_nonneg by (unfold b64_one; lia).
  destruct (decide (i = 0)) as [->|Hne]; [by vm_compute|].
  unfold b64_round_pos, b64_one.
  rewrite Z.div_1_r, Z.log2_mul_pow2 by lia.
  assert (0 ≤ Z.log2 i) by apply Z.log2_nonneg.
  assert (Z.log2 i < 53) by (apply Z.log2_lt_pow2; lia).
  set (e := Z.log2 i) in *.
  rewrite Z.max_r by lia. replace (1074 + e - 52) with (e + 1022) by lia.
  rewrite Z.mul_1_l.
  assert (i * 2 ^ 1074 = i * 2 ^ (52 - e) * 2 ^ (e + 1022)) as Hsplit.
  { rewrite <-Z.mul_assoc, <-Z.pow_add_r by lia. do 2 f_equal. lia. }
  rewrite Hsplit at 1.
  rewrite round_half_even_exact by (apply Z.pow_pos_nonneg; lia).
  rewrite <-Hsplit. apply Z.min_r. unfold b64_infinity. lia.
Qed.

(** The arithmetic of the bound: with [U] for 1.0 and [c] for 2^-54. *)
Lemma count_arith (U c k i P : Z) :
  0 < c → c < U → 2 * c ≤ k → 0 ≤ i < P →
  k * (i * U + P * c) ≤ U * U → i * k < U - c.
Proof.
  intros Hc HU Hk Hi Hle.
  destruct (decide (U < P * k)) as [Hlt|Hge].
  - assert (U * c < P * k * c) by (apply Z.mul_lt_mono_pos_r; lia).
    assert (i * k * U < (U - c) * U) by nia.
    apply (Z.mul_lt_mono_pos_r U); lia.
  - assert (i * k ≤ (P - 1) * k) by (apply Z.mul_le_mono_nonneg_r; lia).
    nia.
Qed.

(** An index below the float quotient: it is below 2^53, and its exact
    product with the step is below the midpoint of the last two numbers
    under 1.0. *)
Lemma below_count k i :
  2 ^ 1021 ≤ k ≤ 2 ^ 1074 → 1 ≤ i →
  i * b64_one < b64_round_pos (b64_one * b64_one) k →
  i < 2 ^ 53 ∧ i * k < 2 ^ 1074 - 2 ^ 1020.
Proof.
  intros Hk Hi Hlt.
  assert (i < 2 ^ 53) as Hi53.
  { assert (b64_round_pos (b64_one * b64_one) k ≤ 2 ^ 1127) as Hup.
    { apply b64_round_pos_le_pow2; unfold b64_one; lia. }
    unfold b64_one in *. lia. }
  split; [done|].
  destruct (Z.log2_spec i ltac:(lia)) as [Hlo Hhi].
  assert (0 ≤ Z.log2 i) by apply Z.log2_nonneg.
  assert (Z.log2 i < 53) by (apply Z.log2_lt_pow2; lia).
  set (e := Z.log2 i) in *.
  replace (Z.succ e) with (e + 1) in Hhi by lia.
  assert (0 < 2 ^ e) by (apply Z.pow_pos_nonneg; lia).
  assert (2 ^ (e + 1) = 2 * 2 ^ e) as He1
    by (rewrite Z.pow_add_r by lia; lia).
  assert (2 ^ (e + 1022) = 2 ^ e * 2 ^ 1022) as Ht
    by (rewrite Z.pow_add_r by lia; lia).
  assert (2 ^ (e + 1074) = 2 ^ e * 2 ^ 1074) as He
    by (rewrite Z.pow_add_r by lia; lia).
  assert (2 ^ (e + 1074 + 1) = 2 * 2 ^ e * 2 ^ 1074) as He'
    by (rewrite !Z.pow_add_r by lia; lia).
  assert (i * 2 ^ (52 - e) * 2 ^ (e + 1022) = i * 2 ^ 1074) as HM.
  { rewrite <-Z.mul_assoc, <-Z.pow_add_r by lia. do 2 f_equal. lia. }
  destruct (decide (2 * (b64_one * b64_one)
                    < k * 2 ^ (e + 1022) * (2 * (i * 2 ^ (52 - e)) + 1)))
    as [Hhalf|Hhalf].
  { exfalso.
    pose proof (b64_round_pos_stays (b64_one * b64_one) k
                  (i * 2 ^ (52 - e)) (e + 1022) (e + 1074)) as Hstay.
    rewrite HM in Hstay. unfold b64_one in *.
    assert (b64_round_pos (2 ^ 1074 * 2 ^ 1074) k ≤ i * 2 ^ 1074);
      [|lia].
    apply Hstay; lia. }
  apply (count_arith (2 ^ 1074) (2 ^ 1020) k i (2 ^ (e + 1))); try lia.
  assert (k * 2 ^ (e + 1022) * (2 * (i * 2 ^ (52 - e)) + 1)
          = 2 * (k * (i * 2 ^ 1074 + 2 ^ (e + 1) * 2 ^ 1020))) as Heq.
  { rewrite <-HM, He1, Ht. ring_simplify. lia. }
  rewrite Heq in Hhalf. unfold b64_one in Hhalf. lia.
Qed.

Lemma b64_div_one k :
  0 < k → b64_div b64_one k = b64_round_pos (b64_one * b64_one) k.
Proof.
  intros Hk. unfold b64_div. rewrite decide_False by lia.
  apply b64_round_nonneg. unfold b64_one. lia.
Qed.

(** The number of values on an axis, for a step from 2^-53 to 1.0. *)
Lemma grid_side_b64_bounds k :
  2 ^ 1021 ≤ k ≤ 2 ^ 1074 →
  1 ≤ b64_ceil (b64_div b64_one k) ≤ 2 ^ 53.
Proof.
  intros Hk. rewrite b64_div_one by lia.
  assert (2 ^ 1074 ≤ b64_round_pos (b64_one * b64_one) k) as Hlo.
  { apply b64_round_pos_ge_pow2; unfold b64_one; lia. }
  assert (b64_round_pos (b64_one * b64_one) k ≤ 2 ^ 1127) as Hhi.
  { apply b64_round_pos_le_pow2; unfold b64_one; lia. }
  unfold b64_ceil. set (q := b64_round_pos _ _) in *. unfold b64_one.
  split.
  - apply Z.div_le_lower_bound; lia.
  - apply Z.lt_succ_r. apply Z.div_lt_upper_bound; lia.
Qed.

(** The values on an axis are in [0, 1). *)
Lemma grid_value_b64_bounds k (i : nat) :
  2 ^ 1021 ≤ k ≤ 2 ^ 1074 → (i < grid_side_b64 k)%nat →
  0 ≤ grid_value_b64 k i < b64_one.
Proof.
  intros Hk Hi. unfold grid_value_b64, grid_side_b64 in *.
  pose proof (grid_side_b64_bounds k Hk) as Hn.
  rewrite b64_of_int_exact by lia.
  unfold b64_mul. rewrite b64_round_nonneg by (unfold b64_one; nia).
  split; [apply b64_round_pos_nonneg; unfold b64_one; nia|].
  destruct (decide (i = 0%nat)) as [->|Hne]; [by vm_compute|].
  rewrite b64_div_one in Hi, Hn by lia.
  unfold b64_ceil in Hi, Hn. set (q := b64_round_pos _ _) in *.
  assert (Z.of_nat i * b64_one < q) as Hlt.
  { assert (Z.of_nat i + 1 ≤ (q + b64_one - 1) / b64_one) as Hle by lia.
    pose proof (Z.mul_div_le (q + b64_one - 1) b64_one
                  ltac:(by vm_compute)) as Hmul.
    assert (b64_one * (Z.of_nat i + 1)
            ≤ b64_one * ((q + b64_one - 1) / b64_one))
      by (apply Z.mul_le_mono_nonneg_l; [by vm_compute|done]).
    lia. }
  destruct (below_count k (Z.of_nat i) Hk ltac:(lia) Hlt) as [Hi53 Hprod].
  assert (b64_round_pos (Z.of_nat i * b64_one * k) b64_one
          ≤ (2 ^ 53 - 1) * 2 ^ 1021) as Hle.
  { apply (b64_round_pos_stays _ _ (2 ^ 53 - 1) 1021 1073);
      unfold b64_one; try lia. }
  unfold b64_one in *. lia.
Qed.

Lemma product_grid_length {A} (l : list A) :
  length (concat (map (λ x, map (λ y, (x, y)) l) l))
  = (length l * length l)%nat.
Proof.
  rewrite concat_mjoin, length_join, (sum_list_fmap_same (length l)).
  - by rewrite length_map.
  - apply Forall_forall. intros row [x [-> _]]%list_elem_of_fmap.
    by rewrite length_map.
Qed.

Lemma product_grid_lookup {A} (l : list A) (i j : nat) (x y : A) :
  l !! i = Some x → l !! j = Some y →
  concat (map (λ x, map (λ y, (x, y)) l) l) !! (i * length l + j)%nat
  = Some (x, y).
Proof.
  intros Ha Hb. rewrite concat_mjoin.
  apply (join_lookup_Some_same_length' (length l));
    [|by eapply lookup_lt_Some|].
  - apply Forall_forall. intros row [x' [-> _]]%list_elem_of_fmap.
    by rewrite length_map.
  - eexists. split.
    + rewrite list_lookup_fmap, Ha. reflexivity.
    + by rewrite list_lookup_fmap, Hb.
Qed.

Lemma product_grid_elem_of {A} (l : list A) (x y : A) :
  (x, y) ∈ concat (map (λ x, map (λ y, (x, y)) l) l) → x ∈ l ∧ y ∈ l.
Proof.
  rewrite concat_mjoin. intros [row [Hin Hrow]]%list_elem_of_join.
  apply list_elem_of_fmap in Hrow as [x' [-> Hx']].
  apply list_elem_of_fmap in Hin as [y' [[= -> ->] Hy']]. done.
Qed.

Lemma np_arange_b64_ok k :
  k ≠ 0 → intp_range (b64_ceil (b64_div b64_one k)) →
  np_arange_b64 k = Ok (map (grid_value_b64 k) (seq 0 (grid_side_b64 k))).
Proof.
  intros Hk Hrange. unfold np_arange_b64.
  rewrite decide_False by done. by rewrite decide_True by done.
Qed.

Lemma create_coordinates_b64_ok k :
  k ≠ 0 → intp_range (b64_ceil (b64_div b64_one k)) →
  create_coordinates_b64 k
  = Ok (concat (map (λ x, map (λ y, (x, y))
                              (map (grid_value_b64 k) (seq 0 (grid_side_b64 k))))
                    (map (grid_value_b64 k) (seq 0 (grid_side_b64 k))))).
Proof.
  intros Hk Hrange. unfold create_coordinates_b64.
  rewrite np_arange_b64_ok by done.
  change (mbind ?f (Ok ?a)) with (f a). cbv beta.
  unfold mret, result_ret.
  set (axis := map (grid_value_b64 k) (seq 0 (grid_side_b64 k))).
  rewrite (mapM_result_ext _ (λ x, Ok (map (λ y, (x, y)) axis))) by done.
  by rewrite mapM_Ok.
Qed.

(** C3, as the code has it, on floats: for every step from 2^-53 to 1.0
    [create_coordinates] returns n * n coordinates, where n is the ceiling
    of the float quotient 1 / step; they are in row-major order, the
    first component in the outer loop and the second in the inner one;
    the component at index i is the float product of i and the step; and
    both components of every coordinate are in [0, 1). *)
Theorem create_coordinates_b64_grid (step : Z) :
  2 ^ 1021 ≤ step ≤ 2 ^ 1074 →
  let n := grid_side_b64 step in
  ∃ coords,
    create_coordinates_b64 step = Ok coords
    ∧ (1 ≤ n)%nat
    ∧ length coords = (n * n)%nat
    ∧ (∀ i j : nat, (i < n)%nat → (j < n)%nat →
         coords !! (i * n + j)%nat
         = Some (grid_value_b64 step i, grid_value_b64 step j))
    ∧ (∀ x y, (x, y) ∈ coords → 0 ≤ x < b64_one ∧ 0 ≤ y < b64_one).
Proof.
  intros Hk n. pose proof (grid_side_b64_bounds step Hk) as Hn.
  eexists. split.
  { apply create_coordinates_b64_ok; [lia|]. unfold intp_range. lia. }
  set (axis := map (grid_value_b64 step) (seq 0 (grid_side_b64 step))).
  assert (length axis = n) as Hlen
    by (unfold axis; by rewrite length_map, length_seq).
  assert (∀ i : nat, (i < n)%nat → axis !! i = Some (grid_value_b64 step i))
    as Hlookup.
  { intros i Hi. unfold axis. rewrite list_lookup_fmap.
    by rewrite lookup_seq_lt. }
  assert (∀ x, x ∈ axis → 0 ≤ x < b64_one) as Hin.
  { intros x [i [-> Hi]]%list_elem_of_fmap.
    apply elem_of_seq in Hi. apply grid_value_b64_bounds; [done|]. lia. }
  split; [unfold n, grid_side_b64; lia|].
  split; [by rewrite product_grid_length, Hlen|]. split.
  - intros i j Hi Hj. rewrite <-Hlen.
    apply product_grid_lookup; apply Hlookup; done.
  - intros x y [Hx Hy]%product_grid_elem_of. split; by apply Hin.
Qed.
End Binary64.

(** At step 0.5: four coordinates. *)
Lemma create_coordinates_b64_grid_witness :
  (2 ^ 1021 ≤ b64_half ≤ 2 ^ 1074)%Z
  ∧ ∃ coords,
      create_coordinates_b64 b64_half = Ok coords
      ∧ length coords = 4%nat
      ∧ coords !! 3%nat = Some (b64_half, b64_half).
Proof.
  assert (2 ^ 1021 ≤ b64_half ≤ 2 ^ 1074)%Z as Hk by (by vm_compute).
  split; [exact Hk|].
  destruct (create_coordinates_b64_grid b64_half Hk)
    as (coords & Hc & _ & Hlen & Hlookup & _).
  exists coords. split; [exact Hc|]. split; [exact Hlen|].
  exact (Hlookup 1%nat 1%nat ltac:(vm_compute; lia) ltac:(vm_compute; lia)).
Defined.

(** C3 as stated fails on floats.  At step 1 / 3.0, which is below a
    third, the ceiling of 1 / step is 4, and [create_coordinates] returns
    9 coordinates, not 16: the float quotient is 3.0.  At step 0.1 the
    value at index 6 is the product 6 * 0.1, 0.6000000000000001, and six
    additions of the step give 0.6. *)
Lemma create_coordinates_b64_not_exact :
  ((0 < b64_third ≤ b64_one)%Z
   ∧ ((b64_one + b64_third - 1) / b64_third = 4)%Z
   ∧ ∃ coords, create_coordinates_b64 b64_third = Ok coords
               ∧ length coords = 9%nat)
  ∧ ((0 < b64_tenth ≤ b64_one)%Z
     ∧ (∃ coords, create_coordinates_b64 b64_tenth = Ok coords
                  ∧ coords !! 6%nat = Some (0%Z, grid_value_b64 b64_tenth 6))
     ∧ grid_value_b64 b64_tenth 6
       = (0x13333333333334 * 2 ^ (1074 - 1 - 52))%Z
     ∧ Nat.iter 6 (b64_add b64_tenth) 0%Z
       = (0x13333333333333 * 2 ^ (1074 - 1 - 52))%Z).
Proof.
  split.
  - split; [by vm_compute|]. split; [by vm_compute|].
    eexists. split; [by vm_compute|]. by vm_compute.
  - split; [by vm_compute|]. split.
    + eexists. split; [by vm_compute|]. by vm_compute.
    + split; by vm_compute.
Qed.

(** ** Probes and edges agree *)

(** C10: the test that folds the parameters of a probe and the test that
    pairs it with the dual are the same test, so the probe at position i
    plays the dual (source 1) exactly when it was built with (1 - y, 1 - x),
    and plays the original player (source 0) when it was built with
    (x, y). *)
Theorem probes_and_edges_agree {Strategy} (probe : PlayerClass Strategy)
    (coordinates : list Point) (i : nat) (x y : Qc) :
  coordinates !! i = Some (x, y) →
  gtb (sum (x, y)) 1 = gtb (x + y) 1
  ∧ ((1 < x + y
      ∧ create_edges coordinates !! i = Some (1%nat, (i + 2)%nat)
      ∧ create_probes probe coordinates !! i
        = Some (Instance (JossAnnTransformer (1 - y, 1 - x) probe)))
     ∨ (¬ 1 < x + y
        ∧ create_edges coordinates !! i = Some (0%nat, (i + 2)%nat)
        ∧ create_probes probe coordinates !! i
          = Some (Instance (JossAnnTransformer (x, y) probe)))).
Proof.
  intros Hi. split; [by rewrite sum_components|].
  destruct (create_edges_spec coordinates) as (_ & Hedge & _).
  specialize (Hedge i x y Hi).
  unfold create_probes. rewrite list_lookup_fmap, Hi. simpl.
  destruct (decide (1 < x + y)) as [H|H]; [left|right].
  - rewrite bool_decide_eq_true_2 in Hedge by done.
    by rewrite (proj2 (gtb_true _ _) H).
  - rewrite bool_decide_eq_false_2 in Hedge by done.
    by rewrite (proj2 (gtb_false _ _) H).
Qed.

(** Of the two coordinates (3/4, 1/2) and (1/4, 1/2) the first is folded
    and plays the dual, the second is neither. *)
Lemma probes_and_edges_agree_witness :
  [(three_quarters, half); (quarter, half)] !! 0%nat = Some (three_quarters, half)
  ∧ create_edges [(three_quarters, half); (quarter, half)] !! 0%nat
    = Some (1%nat, 2%nat)
  ∧ create_probes (Base 0%nat) [(three_quarters, half); (quarter, half)] !! 0%nat
    = Some (Instance (JossAnnTransformer (1 - half, 1 - three_quarters) (Base 0%nat))).
Proof.
  split; [reflexivity|].
  destruct (probes_and_edges_agree (Base 0%nat)
              [(three_quarters, half); (quarter, half)] 0
              three_quarters half eq_refl) as [_ [(_ & He & Hp)|(Hn & _)]].
  - by split.
  - exfalso. apply Hn. qc_eval.
Defined.

(** ** The roster *)

Section Roster.
Context {Strategy Interaction : Type}.
Implicit Types (st : @State Strategy Interaction).

Lemma construct_tournament_elements_run (stp : Qc) (coords : list Point) st :
  create_coordinates stp = Ok coords →
  construct_tournament_elements stp st
  = (Ok (create_edges coords,
         [Instance (strategy (self st));
          Instance (DualTransformer (strategy (self st)))]
         ++ create_probes (probe (self st)) coords),
     with_coordinates coords st).
Proof.
  intros Hc. unfold construct_tournament_elements, lift.
  unfold mbind, M_bind. by rewrite Hc.
Qed.

Lemma construct_tournament_elements_raise (stp : Qc) (e : exn) st :
  create_coordinates stp = Raise e →
  construct_tournament_elements stp st = (Raise e, st).
Proof.
  intros Hc. unfold construct_tournament_elements, lift.
  unfold mbind, M_bind. by rewrite Hc.
Qed.

(** C8: with [coords] the coordinates of the step,
    [construct_tournament_elements] returns the edges and the roster
    [original, dual, probe_0, probe_1, ...]: the roster has two more
    members than there are coordinates, the original player at index 0,
    the dual at index 1, and at index i + 2 the probe of the coordinate
    at position i. *)
Theorem construct_tournament_elements_roster (stp : Qc)
    (coords : list Point) st :
  create_coordinates stp = Ok coords →
  ∃ roster st',
    construct_tournament_elements stp st = (Ok (create_edges coords, roster), st')
    ∧ coordinates (self st') = Some coords
    ∧ roster = Instance (strategy (self st))
               :: Instance (DualTransformer (strategy (self st)))
               :: map (λ c, create_jossann c (probe (self st))) coords
    ∧ length roster = (length coords + 2)%nat
    ∧ roster !! 0%nat = Some (Instance (strategy (self st)))
    ∧ roster !! 1%nat = Some (Instance (DualTransformer (strategy (self st))))
    ∧ (∀ i c, coords !! i = Some c →
         roster !! (i + 2)%nat = Some (create_jossann c (probe (self st)))).
Proof.
  intros Hc. eexists _, _.
  split; [by apply construct_tournament_elements_run|].
  split; [done|]. split; [done|]. split; [|split; [done|split; [done|]]].
  - simpl. unfold create_probes. rewrite length_map. lia.
  - intros i c Hi. replace (i + 2)%nat with (S (S i)) by lia. simpl.
    unfold create_probes. by rewrite list_lookup_fmap, Hi.
Qed.
End Roster.

(** At step 1/2, from a fresh object. *)
Lemma construct_tournament_elements_roster_witness :
  let st := mkState (init (Strategy := string) (Interaction := unit)
                       (Base "Strategy") (Base "Probe"))
                    (mkWorld 0 [] [] ∅ []) in
  ∃ coords,
    create_coordinates half = Ok coords
    ∧ ∃ roster st',
        construct_tournament_elements half st = (Ok (create_edges coords, roster), st')
        ∧ coordinates (self st') = Some coords
        ∧ roster = Instance (Base "Strategy")
                   :: Instance (DualTransformer (Base "Strategy"))
                   :: map (λ c, create_jossann c (Base "Probe")) coords
        ∧ length roster = (length coords + 2)%nat
        ∧ roster !! 0%nat = Some (Instance (Base "Strategy"))
        ∧ roster !! 1%nat = Some (Instance (DualTransformer (Base "Strategy")))
        ∧ (∀ i c, coords !! i = Some c →
             roster !! (i + 2)%nat = Some (create_jossann c (Base "Probe"))).
Proof.
  intros st. eexists. split.
  - apply create_coordinates_ok; grid_conditions.
  - apply (construct_tournament_elements_roster half _ st).
    apply create_coordinates_ok; grid_conditions.
Defined.

(** ** Dictionaries *)

Section DictFacts.
Context {K : Type} `{EqDecision K} {V : Type}.
Implicit Types (d items : list (K * V)) (k : K) (v : V).

Lemma dict_setitem_fresh d k v :
  k ∉ d.*1 → dict_setitem d k v = d ++ [(k, v)].
Proof.
  induction d as [|[k' v'] d IH]; simpl; [done|].
  intros Hk. apply not_elem_of_cons in Hk as [Hne Hk].
  rewrite decide_False by done. by rewrite IH.
Qed.

Lemma dict_fold_distinct items d :
  NoDup ((d ++ items).*1) →
  fold_left (λ d kv, dict_setitem d kv.1 kv.2) items d = d ++ items.
Proof.
  revert d. induction items as [|[k v] items IH]; intros d Hnd; simpl.
  - by rewrite app_nil_r.
  - assert (k ∉ d.*1) as Hk.
    { rewrite fmap_app in Hnd. apply NoDup_app in Hnd as (_ & Hd & _).
      intros Hin. apply (Hd k Hin). simpl. left. }
    rewrite dict_setitem_fresh by done.
    rewrite IH; [by rewrite <-app_assoc|].
    by rewrite <-app_assoc.
Qed.

(** With distinct keys, [dict(items)] is [items]. *)
Lemma dict_distinct items : NoDup (items.*1) → dict items = items.
Proof. intros Hnd. unfold dict. by rewrite dict_fold_distinct. Qed.

Lemma dict_lookup_distinct d i k v :
  NoDup (d.*1) → d !! i = Some (k, v) → dict_lookup d k = Some v.
Proof.
  revert i. induction d as [|[k' v'] d IH]; intros i Hnd Hi; [done|].
  simpl. apply NoDup_cons in Hnd as [Hk' Hnd].
  destruct i as [|i]; simpl in Hi.
  - injection Hi as -> ->. by rewrite decide_True.
  - rewrite decide_False; [by eapply IH|].
    intros ->. apply Hk'. apply list_elem_of_fmap. exists (k', v).
    split; [done|]. by eapply list_elem_of_lookup_2.
Qed.
End DictFacts.

(** ** The reduction *)

Section ReductionFacts.
Context {Interaction Score : Type}.
Variable compute_final_score_per_turn : Interaction → Score.
Variable np_mean : list Score → Qc.
Implicit Types (interactions : gmap (nat * nat) (list Interaction))
               (coordinates : list (Qc * Qc)) (edges : list (nat * nat)).

Local Abbreviation score_of :=
  (edge_score compute_final_score_per_turn np_mean).
Local Abbreviation edge_scores interactions :=
  (mapM (λ edge, records ← getitem interactions edge;
                 mret (score_of records))).

Lemma edge_scores_raise interactions edges edge :
  edge ∈ edges → interactions !! edge = None →
  edge_scores interactions edges = Raise KeyError.
Proof.
  intros Hin Hnone. induction edges as [|e edges IH]; [by inv Hin|].
  rewrite mapM_result_cons.
  destruct (interactions !! e) as [records|] eqn:He.
  - apply elem_of_cons in Hin as [->|Hin]; [congruence|].
    rewrite (getitem_Some _ _ _ He), IH by done. reflexivity.
  - rewrite (getitem_None _ _ He). reflexivity.
Qed.

Lemma edge_scores_ok interactions edges :
  (∀ edge, edge ∈ edges → is_Some (interactions !! edge)) →
  edge_scores interactions edges
  = Ok (map (λ edge, score_of (default [] (interactions !! edge))) edges).
Proof.
  intros Hall. induction edges as [|e edges IH]; [done|].
  rewrite mapM_result_cons.
  destruct (Hall e) as [records He]; [left|].
  rewrite (getitem_Some _ _ _ He).
  rewrite IH; [simpl; by rewrite He|]. intros edge Hin. apply Hall. by right.
Qed.

(** C6: when the records of some edge of the edge list are missing,
    [generate_data] raises [KeyError]; it returns no mapping, so no
    coordinate gets a default score. *)
Theorem generate_data_missing_edge interactions coordinates edges edge :
  edge ∈ edges → interactions !! edge = None →
  generate_data compute_final_score_per_turn np_mean
    interactions coordinates edges = Raise KeyError.
Proof.
  intros Hin Hnone. unfold generate_data.
  by rewrite (edge_scores_raise _ _ edge).
Qed.

(** C4, as the code has it: when the coordinates are distinct, there are
    at least as many edges as coordinates and every edge has its records,
    [generate_data] returns a mapping with one entry per coordinate, its
    keys in order are the coordinates, and the score of the coordinate at
    position i is the mean of the final scores per turn of the records of
    the edge at position i. *)
Theorem generate_data_distinct interactions coordinates edges :
  NoDup coordinates →
  (length coordinates ≤ length edges)%nat →
  (∀ edge, edge ∈ edges → is_Some (interactions !! edge)) →
  ∃ d, generate_data compute_final_score_per_turn np_mean
    interactions coordinates edges = Ok d
       ∧ length d = length coordinates
       ∧ dict_keys d = coordinates
       ∧ (∀ i c e, coordinates !! i = Some c → edges !! i = Some e →
            ∃ records, interactions !! e = Some records
                       ∧ dict_getitem d c = Ok (score_of records)).
Proof.
  intros Hnd Hlen Hall. unfold generate_data.
  rewrite edge_scores_ok by done. simpl.
  set (scores := map _ edges).
  assert (length coordinates ≤ length scores)%nat as Hlen'.
  { unfold scores. by rewrite length_map. }
  assert ((zip coordinates scores).*1 = coordinates) as Hkeys
    by (by apply fst_zip).
  eexists. split; [done|]. rewrite dict_distinct by (by rewrite Hkeys).
  split; [|split; [done|]].
  - rewrite length_zip. lia.
  - intros i c e Hc He.
    destruct (Hall e) as [records Hr]; [by eapply list_elem_of_lookup_2|].
    exists records. split; [done|]. unfold dict_getitem.
    rewrite (dict_lookup_distinct _ i c (score_of records)).
    + done.
    + by rewrite Hkeys.
    + apply lookup_zip_with_Some. exists c, (score_of records).
      split; [done|]. split; [done|].
      unfold scores. rewrite list_lookup_fmap, He. simpl. by rewrite Hr.
Qed.
End ReductionFacts.

(** The edge (0, 4) has no records. *)
Lemma generate_data_missing_edge_witness :
  (0, 4)%nat ∈ [(0, 2); (0, 4)]%nat
  ∧ example_interactions !! (0, 4)%nat = None
  ∧ generate_data id mean_of example_interactions
      [(0, 0); (0, half)] [(0, 2); (0, 4)]%nat = Raise KeyError.
Proof.
  assert ((0, 4)%nat ∈ [(0, 2); (0, 4)]%nat) as Hin by (right; left).
  split; [exact Hin|]. split; [reflexivity|].
  by apply (generate_data_missing_edge id mean_of example_interactions
              [(0, 0); (0, half)] [(0, 2); (0, 4)]%nat (0, 4)%nat).
Defined.

(** Two distinct coordinates and their two edges. *)
Lemma generate_data_distinct_witness :
  ∃ d, generate_data id mean_of example_interactions
         [(0, 0); (0, half)] [(0, 2); (0, 3)]%nat = Ok d
       ∧ length d = 2%nat
       ∧ dict_keys d = [(0, 0); (0, half)].
Proof.
  destruct (generate_data_distinct id mean_of example_interactions
              [(0, 0); (0, half)] [(0, 2); (0, 3)]%nat)
    as (d & Hd & Hlen & Hkeys & _).
  - apply NoDup_cons. split; [|apply NoDup_singleton].
    intros Hin. apply list_elem_of_singleton in Hin. discriminate Hin.
  - simpl. lia.
  - intros edge Hin.
    apply elem_of_cons in Hin as [->|Hin]; [by eexists|].
    apply list_elem_of_singleton in Hin as ->. by eexists.
  - by exists d.
Defined.

(** C4 as stated fails on a repeated coordinate and on a short edge list:
    with every edge's records present, the coordinate (0, 0) given twice
    yields a mapping with the single key (0, 0), whose score comes from the
    second edge; and one coordinate with no edge yields the empty
    mapping. *)
Lemma generate_data_not_one_per_coordinate :
  ((∀ edge, edge ∈ [(0, 2); (0, 3)]%nat → is_Some (example_interactions !! edge))
   ∧ ∃ d, generate_data id mean_of example_interactions
            [(0, 0); (0, 0)] [(0, 2); (0, 3)]%nat = Ok d
          ∧ dict_keys d = [(0, 0)]
          ∧ dict_keys d ≠ [(0, 0); (0, 0)]
          ∧ dict_getitem d (0, 0) ≠ Ok (mean_of [Qc_of_nat 1]))
  ∧ ((∀ edge, edge ∈ ([] : list (nat * nat)) →
        is_Some (example_interactions !! edge))
     ∧ generate_data id mean_of example_interactions [(0, 0)] [] = Ok []).
Proof.
  split; split.
  - intros edge Hin.
    apply elem_of_cons in Hin as [->|Hin]; [by eexists|].
    apply list_elem_of_singleton in Hin as ->. by eexists.
  - eexists. split; [vm_compute; reflexivity|].
    split; [reflexivity|]. split; [discriminate|].
    vm_compute. intros H. discriminate H.
  - intros edge Hin. by apply elem_of_nil in Hin.
  - reflexivity.
Qed.

(** ** The renderer *)

Section DictLookup.
Context {K : Type} `{EqDecision K} {V : Type}.
Implicit Types (d : list (K * V)).

Lemma dict_lookup_is_Some d k : is_Some (dict_lookup d k) ↔ k ∈ d.*1.
Proof.
  induction d as [|[k' v'] d IH]; simpl.
  - split; [by intros [? ?]|by intros ?%elem_of_nil].
  - destruct (decide (k = k')) as [->|Hne].
    + split; [intros _; by left|by eexists].
    + rewrite IH, elem_of_cons. split; [by right|by intros [?|?]].
Qed.
End DictLookup.

Section Renderer.
Context {Strategy Interaction : Type}.
Implicit Types (s : @AshlockFingerprint Strategy Interaction).

(** The comprehension of [plot] returns when every coordinate has a
    score. *)
Lemma ordered_data_ok s (coords : list (Qc * Qc)) (d : list (Qc * Qc * Qc)) :
  data s = Some d → (∀ c, c ∈ coords → is_Some (dict_lookup d c)) →
  ∃ scores, ordered_data s coords = Ok scores
            ∧ length scores = length coords.
Proof.
  intros Hdata Hall. unfold ordered_data. rewrite Hdata.
  induction coords as [|c coords IH]; [by exists []|].
  rewrite mapM_result_cons.
  destruct (Hall c) as [v Hv]; [by left|].
  destruct IH as (scores & -> & Hlen); [intros c' Hc'; apply Hall; by right|].
  simpl. unfold dict_getitem. rewrite Hv. simpl.
  exists (v :: scores). split; [done|]. simpl. by rewrite Hlen.
Qed.

(** C5, as the code has it: with a step, the coordinates and a score for
    every coordinate, [plot] raises [TypeError] and hands nothing to the
    drawing: the side [(1 / self.step) // 1] it gives to [np.reshape] is a
    float.  This whatever the number of scores, those that are the square
    of the side included. *)
Theorem plot_float_shape s col_map (stp : Qc) (coords : list (Qc * Qc))
    (d : list (Qc * Qc * Qc)) :
  step s = Some stp → stp ≠ 0 → coordinates s = Some coords →
  data s = Some d → (∀ c, c ∈ coords → is_Some (dict_lookup d c)) →
  plot s col_map = Raise TypeError.
Proof.
  intros Hstep Hne Hcoords Hdata Hall.
  destruct (ordered_data_ok s coords d Hdata Hall) as (scores & Hscores & _).
  unfold plot. rewrite Hstep. simpl.
  rewrite decide_False by done. rewrite Hcoords. simpl.
  by rewrite Hscores.
Qed.
End Renderer.

(** At step 1/2, with the four coordinates of the grid and a score for
    each. *)
Lemma plot_float_shape_witness :
  floor (1 / half) = 2%Z
  ∧ length example_coordinates = 4%nat
  ∧ plot (example_object example_coordinates) "seismic" = Raise TypeError.
Proof.
  split; [reflexivity|]. split; [reflexivity|].
  apply (plot_float_shape (example_object example_coordinates) "seismic" half
           example_coordinates example_data);
    [reflexivity|discriminate|reflexivity|reflexivity|].
  intros c Hc. apply dict_lookup_is_Some.
  by replace (example_data.*1) with example_coordinates by reflexivity.
Defined.

(** ** The runs of [fingerprint] *)

Section StoreChoice.
Context {Strategy Interaction : Type}.
Implicit Types (st : @State Strategy Interaction) (on_windows : bool).

Lemma choose_store_memory st : choose_store true None st = (Ok None, st).
Proof. reflexivity. Qed.

Lemma choose_store_temporary on_windows filename st :
  truthy filename = false → (on_windows = false ∨ filename ≠ None) →
  choose_store on_windows filename st
  = (Ok (Some (TemporaryFile (tmp_name (next_tmp (world st))))),
     with_temporary_file st).
Proof.
  intros Hf Hw. unfold choose_store. rewrite Hf.
  destruct Hw as [->|Hne]; [reflexivity|].
  rewrite bool_decide_eq_false_2 by done. by rewrite andb_false_r.
Qed.

Lemma choose_store_named on_windows name st :
  name ≠ "" →
  choose_store on_windows (Some name) st
  = if bool_decide (name ∈ unwritable (world st))
    then (Raise (IOError name), st)
    else (Ok (Some (OrdinaryFile name)), with_output_file name st).
Proof.
  intros Hne. unfold choose_store.
  rewrite bool_decide_eq_false_2 by done. rewrite andb_false_r.
  unfold truthy. rewrite bool_decide_eq_false_2 by done. simpl.
  unfold open_w, mbind, M_bind, get_world. cbn beta iota.
  by destruct (bool_decide (name ∈ unwritable (world st))).
Qed.

(** The choice of the store assigns no attribute. *)
Lemma choose_store_self on_windows filename st :
  self (choose_store on_windows filename st).2 = self st.
Proof.
  destruct (decide (on_windows = true ∧ filename = None)) as [[-> ->]|Hn].
  { by rewrite choose_store_memory. }
  destruct (truthy filename) eqn:Hf.
  - destruct filename as [name|]; [|done].
    unfold truthy in Hf. apply negb_true_iff, bool_decide_eq_false in Hf.
    rewrite choose_store_named by done. by destruct (bool_decide _).
  - rewrite choose_store_temporary; [done..|].
    destruct on_windows; [right|by left]. intros ->. by apply Hn.
Qed.
End StoreChoice.

Section Store.
Context {Strategy Interaction Score : Type}.
Variable compute_final_score_per_turn : Interaction → Score.
Variable np_mean : list Score → Qc.
Variable on_windows : bool.
Variable tournament_refused :
  list (Player Strategy) → nat → nat → list (nat * nat) → option exn.
Variable engine :
  list (Player Strategy) → list (nat * nat) → nat → nat → option nat →
  result (gmap (nat * nat) (list Interaction)).
Variable read_back :
  gmap (nat * nat) (list Interaction) →
  result (gmap (nat * nat) (list Interaction)).
Implicit Types (st : @State Strategy Interaction) (turns repetitions : nat)
               (stp : Qc) (processes : option nat).

Local Abbreviation reduce :=
  (generate_data compute_final_score_per_turn np_mean).
Local Abbreviation run_after_store :=
  (after_store compute_final_score_per_turn np_mean tournament_refused engine
     read_back).

(** Every path of the body after the store is chosen, in either mode: the
    grid is refused; the tournament is refused; the engine fails; the
    records cannot be read back; they are reduced. *)
Lemma after_store_run turns repetitions stp processes filename' st :
  run_after_store turns repetitions stp processes filename' st
  = match create_coordinates stp with
    | Raise e => (Raise e, st)
    | Ok coords =>
        match tournament_refused (roster_of st coords) turns repetitions
                (create_edges coords) with
        | Some e => (Raise e, mkState (stepped stp coords (self st)) (world st))
        | None =>
            let s1 := prepared turns repetitions stp coords (self st) in
            match engine (roster_of st coords) (create_edges coords)
                    turns repetitions processes with
            | Raise e =>
                (Raise e, mkState s1 (world_played filename' None (world st)))
            | Ok written =>
                let w := world_played filename' (Some written) (world st) in
                match records_read read_back filename' written with
                | Raise e => (Raise e, mkState s1 w)
                | Ok records =>
                    let r := reduce records coords (create_edges coords) in
                    (r, mkState (reduced records r s1) w)
                end
            end
        end
    end.
Proof.
  unfold after_store. unfold mbind at 1. unfold M_bind at 1.
  destruct (create_coordinates stp) as [coords|e] eqn:Hc.
  - rewrite (construct_tournament_elements_run stp coords st Hc).
    fold (roster_of st coords).
    unfold play_to_file, play_in_memory, read_interactions_from_file, lift.
    unfold mbind, M_bind.
    cbn [set_step set_spatial_tourn set_self emit set_world].
    cbn beta iota. cbv zeta.
    destruct (tournament_refused _ _ _ _) as [e|]; [done|].
    destruct filename' as [name|];
      destruct (engine _ _ _ _ _) as [written|e]; cbn.
    + rewrite lookup_insert_eq. cbn.
      destruct (read_back written) as [records|e]; cbn;
        [|by rewrite <-app_assoc].
      destruct (generate_data _ _ _ _ _) as [d|e]; cbn;
        by rewrite <-app_assoc.
    + done.
    + by destruct (generate_data _ _ _ _ _) as [d|e].
    + done.
  - by rewrite (construct_tournament_elements_raise stp e st Hc).
Qed.

Lemma fingerprint_run turns repetitions stp processes filename st :
  fingerprint compute_final_score_per_turn np_mean on_windows
    tournament_refused engine read_back
    turns repetitions stp processes filename st
  = match choose_store on_windows filename st with
    | (Ok outputfile, st1) =>
        match run_after_store turns repetitions stp processes
                (file_name <$> outputfile) st1 with
        | (Ok d, st2) => (Ok d, release_frame outputfile st2)
        | (Raise e, st2) => (Raise e, st2)
        end
    | (Raise e, st1) => (Raise e, st1)
    end.
Proof. unfold fingerprint. by destruct (choose_store _ _ _) as [[?|?] ?]. Qed.

(** What a call that returned has left in the object. *)
Lemma fingerprint_returned turns repetitions stp processes filename st d st' :
  fingerprint compute_final_score_per_turn np_mean on_windows
    tournament_refused engine read_back
    turns repetitions stp processes filename st = (Ok d, st') →
  ∃ coords records,
    create_coordinates stp = Ok coords
    ∧ reduce records coords (create_edges coords) = Ok d
    ∧ self st'
      = reduced records (Ok d)
          (prepared turns repetitions stp coords (self st)).
Proof.
  rewrite fingerprint_run.
  pose proof (choose_store_self on_windows filename st) as Hself.
  destruct (choose_store on_windows filename st) as [[outputfile|e] st1];
    [|done].
  simpl in Hself. rewrite after_store_run.
  destruct (create_coordinates stp) as [coords|e]; [|done].
  destruct (tournament_refused _ _ _ _) as [e|]; [done|]. cbv zeta.
  destruct (engine _ _ _ _ _) as [written|e]; [|done].
  destruct (records_read _ _ _) as [records|e]; [|done].
  destruct (reduce records coords (create_edges coords)) as [d'|e] eqn:Hd;
    [|done].
  intros [= <- <-]. exists coords, records. split; [done|]. split; [done|].
  rewrite <-Hself. by destruct outputfile.
Qed.

(** *** The temporary record store *)

(** C9, as the code has it: in spill-to-storage mode with no output
    target the temporary store is created first, and the tournament, when
    it is played, is played on it.  When [fingerprint] returns, the store
    is closed and removed.  When [fingerprint] raises, the failure of the
    engine included, the store is still open and on the host as
    [fingerprint] exits: nothing has closed or removed it, and it is
    released once the caller has dropped the exception. *)
Theorem fingerprint_temporary_store turns repetitions stp processes st :
  on_windows = false →
  let name := tmp_name (next_tmp (world st)) in
  let run := fingerprint compute_final_score_per_turn np_mean on_windows
               tournament_refused engine read_back
               turns repetitions stp processes None st in
  let dropped := exception_dropped on_windows None st run.2 in
  (∃ rest,
     log (world run.2) = log (world st) ++ Created name :: rest
     ∧ ∀ coords,
         create_coordinates stp = Ok coords →
         tournament_refused (roster_of st coords) turns repetitions
           (create_edges coords) = None →
         ∃ rest', rest = Played (Some name) :: rest')
  ∧ (∀ d, run.1 = Ok d →
       opened (world run.2) = opened (world st)
       ∧ contents (world run.2) !! name = None
       ∧ ∃ before,
           log (world run.2) = before ++ [Closed name; Removed name])
  ∧ (∀ e, run.1 = Raise e →
       opened (world run.2) = name :: opened (world st)
       ∧ is_Some (contents (world run.2) !! name)
       ∧ (∃ rest,
            log (world run.2) = log (world st) ++ Created name :: rest
            ∧ Forall (λ ev, release_event ev = false) rest)
       ∧ opened (world dropped) = opened (world st)
       ∧ contents (world dropped) !! name = None
       ∧ log (world dropped)
         = log (world run.2) ++ [Closed name; Removed name])
  ∧ (∀ coords e,
       create_coordinates stp = Ok coords →
       tournament_refused (roster_of st coords) turns repetitions
         (create_edges coords) = None →
       engine (roster_of st coords) (create_edges coords)
         turns repetitions processes = Raise e →
       run.1 = Raise e
       ∧ log (world run.2)
         = log (world st) ++ [Created name; Played (Some name)]).
Proof.
  intros Hwin name run dropped. subst dropped run.
  unfold exception_dropped, outputfile_of.
  rewrite fingerprint_run.
  rewrite (choose_store_temporary on_windows None st)
    by (first [done | by left]).
  fold name. rewrite after_store_run.
  change (roster_of (with_temporary_file st)) with (roster_of st).
  cbn [fmap option_fmap option_map file_name].
  destruct (create_coordinates stp) as [coords|e0] eqn:Hc.
  2:{ cbn. fold name. rewrite decide_True by done.
      rewrite lookup_insert_eq, lookup_delete_eq.
      split; [exists []; by split|].
      split; [done|]. split; [|done].
      intros e _. split; [done|]. split; [by eexists|].
      split; [exists []; by split|]. split; [done|]. split; [done|].
      by rewrite <-app_assoc. }
  destruct (tournament_refused _ _ _ _) as [e0|] eqn:Hrefused.
  { cbn. fold name. rewrite decide_True by done.
    rewrite lookup_insert_eq, lookup_delete_eq.
    split.
    { exists []. split; [done|]. intros coords' [= <-] Hn.
      unfold roster_of in Hrefused. simpl in Hrefused. congruence. }
    split; [done|]. split.
    2:{ intros coords' e [= <-] Hn.
        unfold roster_of in Hrefused. simpl in Hrefused. congruence. }
    intros e _. split; [done|]. split; [by eexists|].
    split; [exists []; by split|]. split; [done|]. split; [done|].
    by rewrite <-app_assoc. }
  cbv zeta.
  destruct (engine _ _ _ _ _) as [written|e0] eqn:He.
  2:{ cbn. fold name. rewrite decide_True by done.
      rewrite lookup_insert_eq, lookup_delete_eq.
      split.
      { exists [Played (Some name)].
        split; [by rewrite <-app_assoc|]. intros; by eexists. }
      split; [done|]. split.
      - intros e _. split; [done|]. split; [by eexists|]. split.
        { exists [Played (Some name)].
          split; [by rewrite <-app_assoc|]. by repeat constructor. }
        split; [done|]. split; [done|]. by rewrite <-!app_assoc.
      - intros coords' e [= <-] _ He'.
        unfold roster_of in He. simpl in He. rewrite He in He'.
        injection He' as <-. split; [done|]. by rewrite <-app_assoc. }
  unfold records_read.
  destruct (read_back written) as [records|e0].
  2:{ cbn. fold name. rewrite decide_True by done.
      rewrite lookup_insert_eq, lookup_delete_eq.
      split.
      { exists [Played (Some name); ReadBack name].
        split; [by rewrite <-app_assoc|]. intros; by eexists. }
      split; [done|]. split.
      2:{ intros coords' e [= <-] _ He'.
          unfold roster_of in He. simpl in He. congruence. }
      intros e _. split; [done|]. split; [by eexists|]. split.
      { exists [Played (Some name); ReadBack name].
        split; [by rewrite <-app_assoc|]. by repeat constructor. }
      split; [done|]. split; [done|]. by rewrite <-!app_assoc. }
  destruct (reduce records coords (create_edges coords)) as [d0|e0].
  - cbn. fold name. rewrite decide_True by done. rewrite lookup_delete_eq.
    split.
    { exists [Played (Some name); ReadBack name; Closed name; Removed name].
      split; [by rewrite <-!app_assoc|]. intros; by eexists. }
    split.
    2:{ split; [done|]. intros coords' e [= <-] _ He'.
        unfold roster_of in He. simpl in He. congruence. }
    intros d _. split; [done|]. split; [done|]. by eexists.
  - cbn. fold name. rewrite decide_True by done.
    rewrite lookup_insert_eq, lookup_delete_eq.
    split.
    { exists [Played (Some name); ReadBack name].
      split; [by rewrite <-app_assoc|]. intros; by eexists. }
    split; [done|]. split.
    2:{ intros coords' e [= <-] _ He'.
        unfold roster_of in He. simpl in He. congruence. }
    intros e _. split; [done|]. split; [by eexists|]. split.
    { exists [Played (Some name); ReadBack name].
      split; [by rewrite <-app_assoc|]. by repeat constructor. }
    split; [done|]. split; [done|]. by rewrite <-!app_assoc.
Qed.
End Store.

(** With an engine that plays every edge once, from a fresh object on a
    host with no file open: the call returns, and the store is gone. *)
Lemma fingerprint_temporary_store_witness :
  let run := fingerprint id mean_of false no_refusal example_engine Ok
               10 1 half None None example_state in
  (∃ d, run.1 = Ok d)
  ∧ opened (world run.2) = []
  ∧ contents (world run.2) !! tmp_name 0 = None
  ∧ ∃ before,
      log (world run.2) = before ++ [Closed (tmp_name 0); Removed (tmp_name 0)].
Proof.
  intros run.
  assert (∃ d, run.1 = Ok d) as [d Hd] by (eexists; reflexivity).
  destruct (fingerprint_temporary_store id mean_of false no_refusal
              example_engine Ok 10 1 half None example_state eq_refl)
    as (_ & Hok & _).
  destruct (Hok d Hd) as (Hopened & Hcontents & Hlog).
  split; [by exists d|]. by repeat split.
Defined.

(** C9 as stated fails: when the engine fails, [fingerprint] exits with the
    engine's error while the temporary store is still open and on the
    host, and no event has closed or removed it. *)
Lemma fingerprint_engine_failure_keeps_store :
  let run := fingerprint id mean_of false no_refusal failing_engine Ok
               10 1 half None None example_state in
  run.1 = Raise (EngineError "play failed")
  ∧ opened (world run.2) = [tmp_name 0]
  ∧ contents (world run.2) !! tmp_name 0 = Some ∅
  ∧ log (world run.2) = [Created (tmp_name 0); Played (Some (tmp_name 0))].
Proof.
  intros run. repeat split; reflexivity.
Qed.

(** ** The roster at step 0 *)

(** C8 as stated fails: at step 0 [construct_tournament_elements] returns
    no roster; it raises [ZeroDivisionError]. *)
Lemma construct_tournament_elements_no_roster_at_zero :
  (construct_tournament_elements 0 example_state).1 = Raise ZeroDivisionError.
Proof. reflexivity. Qed.

(** * Further properties of the code *)

(** ** The grid outside (0, 1) *)

Lemma Qc_of_nat_0 : Qc_of_nat 0 = 0.
Proof. by apply Qc_is_canon. Qed.

Lemma Qc_of_nat_inj (i j : nat) : Qc_of_nat i = Qc_of_nat j → i = j.
Proof.
  intros H. apply (f_equal this) in H. unfold Qc_of_nat, Qc_of_Z in H.
  simpl in H. injection H as H. lia.
Qed.

Lemma inverse_negative (stp : Qc) : stp < 0 → 1 / stp < 0.
Proof.
  intros Hneg. apply Qcnot_le_lt. intros Hge.
  assert (0 ≤ - stp) as Hpos by qc_lra.
  pose proof (Qcmult_le_mono_nonneg_r 0 (1 / stp) (- stp) Hpos Hge) as H.
  assert (1 / stp * - stp = - 1) as Heq.
  { field. intros ->. by apply (Qclt_not_eq 0 0). }
  rewrite Heq, Qcmult_0_l in H. revert H. by apply Qclt_not_le.
Qed.

Lemma grid_side_negative (stp : Qc) : stp < 0 → grid_side stp = 0%nat.
Proof.
  intros Hneg. unfold grid_side, ceil.
  pose proof (inverse_negative stp Hneg) as Hinv.
  assert (Qceiling (this (1 / stp)%Qc) ≤ Qceiling 0)%Z as Hle.
  { apply Qceiling_resp_le. apply Qlt_le_weak. exact Hinv. }
  change (Qceiling 0) with 0%Z in Hle. lia.
Qed.

Lemma grid_side_large (stp : Qc) : 1 ≤ stp → grid_side stp = 1%nat.
Proof.
  intros Hge. unfold grid_side, ceil.
  assert (0 < stp) as Hpos by (eapply Qclt_le_trans; [|exact Hge]; qc_eval).
  assert (0 < 1 / stp) as Hinv.
  { unfold Qcdiv. rewrite Qcmult_1_l. by apply Qcinv_pos. }
  assert (1 / stp ≤ 1) as Hle.
  { apply (Qcmult_lt_0_le_reg_r _ _ stp Hpos).
    replace (1 / stp * stp) with 1; [by rewrite Qcmult_1_l|].
    field. intros ->. by apply (Qclt_not_eq 0 0). }
  pose proof (Qceiling_resp_le _ _ Hle) as Hup.
  change (Qceiling (this 1)) with 1%Z in Hup.
  pose proof (Qle_ceiling (this (1 / stp)%Qc)) as Hc.
  assert (0 < Qceiling (this (1 / stp)%Qc))%Z; [|lia].
  rewrite Zlt_Qlt. eapply Qlt_le_trans; [exact Hinv|exact Hc].
Qed.

(** X1: a zero step is refused: [construct_tournament_elements] raises
    [ZeroDivisionError] and leaves the object as it was, [self.coordinates]
    included. *)
Theorem construct_tournament_elements_zero_step {Strategy Interaction}
    (st : @State Strategy Interaction) :
  create_coordinates 0 = Raise ZeroDivisionError
  ∧ construct_tournament_elements 0 st = (Raise ZeroDivisionError, st).
Proof.
  assert (create_coordinates 0 = Raise ZeroDivisionError) as H by reflexivity.
  split; [exact H|]. by apply construct_tournament_elements_raise.
Qed.

(** X2: a negative step whose count [ceil(1/step)] is in the range of
    [npy_intp] is not an error: the grid is empty, so there is no edge and
    the roster is the original player and its dual alone. *)
Theorem construct_tournament_elements_negative_step {Strategy Interaction}
    (stp : Qc) (st : @State Strategy Interaction) :
  stp < 0 → (- 2 ^ 63 ≤ ceil (1 / stp))%Z →
  create_coordinates stp = Ok []
  ∧ construct_tournament_elements stp st
    = (Ok ([], [Instance (strategy (self st));
                Instance (DualTransformer (strategy (self st)))]),
       with_coordinates [] st).
Proof.
  intros Hneg Hmin.
  pose proof (grid_side_negative stp Hneg) as Hside.
  assert (create_coordinates stp = Ok []) as H.
  { rewrite create_coordinates_ok.
    - unfold grid_axis. by rewrite Hside.
    - intros ->. by apply (Qclt_not_eq 0 0).
    - unfold grid_side in Hside. split; [done|].
      assert (ceil (1 / stp) ≤ 0)%Z; [|lia].
      destruct (decide (ceil (1 / stp) ≤ 0)%Z) as [|Hpos]; [done|].
      apply Z.nle_gt in Hpos. apply Z2Nat.inj_lt in Hpos; lia. }
  split; [exact H|].
  by rewrite (construct_tournament_elements_run stp [] st H).
Qed.

Lemma construct_tournament_elements_negative_step_witness :
  - half < 0 ∧ (- 2 ^ 63 ≤ ceil (1 / - half))%Z
  ∧ create_coordinates (- half) = Ok [].
Proof.
  split; [qc_eval|]. split; [vm_compute; discriminate|].
  apply (construct_tournament_elements_negative_step (Strategy := string)
           (Interaction := unit) (- half)
           (mkState (init (Base "Strategy") (Base "Probe")) (mkWorld 0 [] [] ∅ [])));
    [qc_eval|vm_compute; discriminate].
Defined.

(** X3: for a step of 1 or more the grid is the single point (0, 0). *)
Theorem create_coordinates_large_step (stp : Qc) :
  1 ≤ stp → create_coordinates stp = Ok [(0, 0)].
Proof.
  intros Hge. pose proof (grid_side_large stp Hge) as Hside.
  rewrite create_coordinates_ok.
  - unfold grid_axis. rewrite Hside. simpl.
    rewrite Qc_of_nat_0, Qcmult_0_l. done.
  - intros ->. revert Hge. apply Qclt_not_le. qc_eval.
  - unfold grid_side in Hside. unfold intp_range.
    assert (ceil (1 / stp) = 1)%Z as ->; [|split; vm_compute; discriminate].
    destruct (decide (0 ≤ ceil (1 / stp))%Z) as [Hnn|Hn].
    + apply Z2Nat.inj; [done|lia|]. by rewrite Hside.
    + rewrite Z2Nat.nonpos in Hside by lia. discriminate.
Qed.

Lemma create_coordinates_large_step_witness :
  1 ≤ 1 + half ∧ create_coordinates (1 + half) = Ok [(0, 0)].
Proof.
  split; [qc_eval|]. apply (create_coordinates_large_step (1 + half)). qc_eval.
Defined.

(** ** The points of the grid are distinct *)

Lemma grid_axis_NoDup (stp : Qc) : stp ≠ 0 → NoDup (grid_axis stp).
Proof.
  intros Hne. unfold grid_axis. apply NoDup_fmap_2_strong; [|apply NoDup_seq].
  intros i j _ _ Heq. apply Qc_of_nat_inj.
  assert (Qc_of_nat i * stp * / stp = Qc_of_nat j * stp * / stp) as H
    by (by rewrite Heq).
  by rewrite <-!Qcmult_assoc, Qcmult_inv_r, !Qcmult_1_r in H.
Qed.

Lemma grid_product_NoDup {A B} (l : list A) (k : list B) :
  NoDup l → NoDup k → NoDup (concat (map (λ a, map (λ b, (a, b)) k) l)).
Proof.
  intros Hl Hk. induction Hl as [|a l Ha Hl IH]; simpl; [constructor|].
  apply NoDup_app. split; [|split; [|done]].
  - apply NoDup_fmap_2; [|done]. by intros b b' [= ->].
  - intros [a' b] [b' [[= -> ->] Hb]]%list_elem_of_fmap Hin.
    rewrite concat_mjoin in Hin.
    apply list_elem_of_join in Hin as [row [Hin Hrow]].
    apply list_elem_of_fmap in Hrow as [a'' [-> Ha'']].
    apply list_elem_of_fmap in Hin as [b'' [[= -> ->] _]]. done.
Qed.

Lemma grid_NoDup (stp : Qc) (coords : list (Qc * Qc)) :
  create_coordinates stp = Ok coords → NoDup coords.
Proof.
  intros Hc. destruct (create_coordinates_inv stp coords Hc) as [Hne Hrange].
  rewrite create_coordinates_ok in Hc by done. injection Hc as <-.
  apply grid_product_NoDup; by apply grid_axis_NoDup.
Qed.

Lemma grid_length (stp : Qc) (coords : list (Qc * Qc)) :
  create_coordinates stp = Ok coords →
  length coords = (grid_side stp * grid_side stp)%nat.
Proof.
  intros Hc. destruct (create_coordinates_inv stp coords Hc) as [Hne Hrange].
  rewrite create_coordinates_ok in Hc by done. injection Hc as <-.
  rewrite concat_mjoin, length_join, (sum_list_fmap_same (grid_side stp)).
  - by rewrite length_map, grid_axis_length.
  - apply Forall_forall. intros row [j [-> _]]%list_elem_of_fmap.
    by rewrite length_map, grid_axis_length.
Qed.

Lemma grid_lookup (stp : Qc) (coords : list (Qc * Qc)) (i j : nat) :
  create_coordinates stp = Ok coords →
  (i < grid_side stp)%nat → (j < grid_side stp)%nat →
  coords !! (i * grid_side stp + j)%nat
  = Some (Qc_of_nat i * stp, Qc_of_nat j * stp).
Proof.
  intros Hc Hi Hj. destruct (create_coordinates_inv stp coords Hc) as [Hne Hrange].
  rewrite create_coordinates_ok in Hc by done. injection Hc as <-.
  rewrite concat_mjoin.
  apply (join_lookup_Some_same_length' (grid_side stp)); [|done|].
  - apply Forall_forall. intros row [k [-> _]]%list_elem_of_fmap.
    by rewrite length_map, grid_axis_length.
  - eexists. split.
    + rewrite list_lookup_fmap, grid_axis_lookup by done. reflexivity.
    + by rewrite list_lookup_fmap, grid_axis_lookup by done.
Qed.

(** X4: the coordinates [create_coordinates] returns are pairwise
    distinct, whatever the step. *)
Theorem create_coordinates_NoDup (stp : Qc) (coords : list (Qc * Qc)) :
  create_coordinates stp = Ok coords → NoDup coords.
Proof. apply grid_NoDup. Qed.

Lemma create_coordinates_NoDup_witness :
  ∃ coords, create_coordinates half = Ok coords ∧ NoDup coords.
Proof.
  eexists. split; [apply create_coordinates_ok; grid_conditions|].
  apply (create_coordinates_NoDup half). apply create_coordinates_ok; grid_conditions.
Defined.

(** ** Edges and roster together *)

Lemma create_edges_targets (coordinates : list (Qc * Qc)) :
  (create_edges coordinates).*2 = seq 2 (length coordinates).
Proof.
  rewrite create_edges_imap. apply list_eq. intros i.
  rewrite list_lookup_fmap, list_lookup_imap.
  destruct (coordinates !! i) as [c|] eqn:Hi; simpl.
  - rewrite lookup_seq_lt by (by eapply lookup_lt_Some). f_equal. lia.
  - rewrite lookup_seq_ge; [done|]. by apply lookup_ge_None.
Qed.

Lemma roster_of_length {Strategy Interaction}
    (st : @State Strategy Interaction) (coords : list (Qc * Qc)) :
  length (roster_of st coords) = (length coords + 2)%nat.
Proof. unfold roster_of, create_probes. simpl. rewrite length_map. lia. Qed.

Lemma create_edges_valid {Strategy Interaction}
    (st : @State Strategy Interaction) (coords : list (Qc * Qc)) :
  Forall (λ e, (e.1 < 2)%nat
               ∧ (2 ≤ e.2 < length (roster_of st coords))%nat
               ∧ e.1 ≠ e.2) (create_edges coords).
Proof.
  rewrite create_edges_imap. apply Forall_forall. intros e He.
  apply list_elem_of_lookup in He as [i Hi].
  rewrite list_lookup_imap in Hi.
  destruct (coords !! i) as [c|] eqn:Hc; [|done]. injection Hi as <-.
  apply lookup_lt_Some in Hc. rewrite roster_of_length.
  unfold edge_for. simpl. destruct (bool_decide _); lia.
Qed.

Lemma edge_opponent {Strategy Interaction}
    (st : @State Strategy Interaction) (coords : list (Qc * Qc))
    (i : nat) (x y : Qc) :
  coords !! i = Some (x, y) →
  ∃ s t,
    create_edges coords !! i = Some (s, t)
    ∧ roster_of st coords !! t = Some (create_jossann (x, y) (probe (self st)))
    ∧ roster_of st coords !! s
      = Some (Instance (if bool_decide (1 < x + y)
                        then DualTransformer (strategy (self st))
                        else strategy (self st))).
Proof.
  intros Hi. eexists _, _. split.
  - rewrite create_edges_imap, list_lookup_imap, Hi. reflexivity.
  - simpl. split.
    + replace (i + 2)%nat with (S (S i)) by lia. simpl.
      unfold create_probes. by rewrite list_lookup_fmap, Hi.
    + by destruct (bool_decide (1 < x + y)).
Qed.

(** X5: the edges [construct_tournament_elements] returns are pairs of
    valid, different indices of the roster it returns: the source is 0 or
    1, the targets are 2, 3, ... in order, all below the length of the
    roster; no edge is repeated and no player is paired with itself. *)
Theorem construct_tournament_elements_edges_valid {Strategy Interaction}
    (stp : Qc) (coords : list (Qc * Qc)) (st : @State Strategy Interaction) :
  create_coordinates stp = Ok coords →
  ∃ edges roster st',
    construct_tournament_elements stp st = (Ok (edges, roster), st')
    ∧ edges.*2 = seq 2 (length coords)
    ∧ Forall (λ e, (e.1 < 2)%nat ∧ (2 ≤ e.2 < length roster)%nat ∧ e.1 ≠ e.2)
        edges
    ∧ NoDup edges.
Proof.
  intros Hc. eexists _, _, _.
  split; [by apply construct_tournament_elements_run|].
  split; [apply create_edges_targets|]. split.
  - apply (create_edges_valid st coords).
  - apply (NoDup_fmap_1 snd). rewrite create_edges_targets. apply NoDup_seq.
Qed.

Lemma construct_tournament_elements_edges_valid_witness :
  let st := mkState (init (Strategy := string) (Interaction := unit)
                       (Base "Strategy") (Base "Probe"))
                    (mkWorld 0 [] [] ∅ []) in
  ∃ coords,
    create_coordinates half = Ok coords
    ∧ ∃ edges roster st',
        construct_tournament_elements half st = (Ok (edges, roster), st')
        ∧ edges.*2 = seq 2 (length coords)
        ∧ Forall (λ e, (e.1 < 2)%nat ∧ (2 ≤ e.2 < length roster)%nat
                       ∧ e.1 ≠ e.2) edges
        ∧ NoDup edges.
Proof.
  intros st. eexists. split.
  - apply create_coordinates_ok; grid_conditions.
  - apply (construct_tournament_elements_edges_valid half _ st).
    apply create_coordinates_ok; grid_conditions.
Defined.

(** X6: in what [construct_tournament_elements] returns, the edge of a
    coordinate pairs its own probe with the right opponent: the target
    indexes the probe built from that coordinate, and the source indexes
    the dual when the components sum to more than 1 and the original
    player otherwise. *)
Theorem edge_pairs_probe_with_opponent {Strategy Interaction}
    (stp : Qc) (coords : list (Qc * Qc)) (st : @State Strategy Interaction) :
  create_coordinates stp = Ok coords →
  ∃ edges roster st',
    construct_tournament_elements stp st = (Ok (edges, roster), st')
    ∧ ∀ i x y, coords !! i = Some (x, y) →
        ∃ s t,
          edges !! i = Some (s, t)
          ∧ roster !! t = Some (create_jossann (x, y) (probe (self st)))
          ∧ roster !! s
            = Some (Instance (if bool_decide (1 < x + y)
                              then DualTransformer (strategy (self st))
                              else strategy (self st))).
Proof.
  intros Hc. eexists _, _, _.
  split; [by apply construct_tournament_elements_run|].
  intros i x y Hi. by apply (edge_opponent st coords i x y).
Qed.

Lemma edge_pairs_probe_with_opponent_witness :
  let st := mkState (init (Strategy := string) (Interaction := unit)
                       (Base "Strategy") (Base "Probe"))
                    (mkWorld 0 [] [] ∅ []) in
  ∃ coords,
    create_coordinates half = Ok coords
    ∧ ∃ edges roster st',
        construct_tournament_elements half st = (Ok (edges, roster), st')
        ∧ ∀ i x y, coords !! i = Some (x, y) →
            ∃ s t,
              edges !! i = Some (s, t)
              ∧ roster !! t = Some (create_jossann (x, y) (Base "Probe"))
              ∧ roster !! s
                = Some (Instance (if bool_decide (1 < x + y)
                                  then DualTransformer (Base "Strategy")
                                  else Base "Strategy")).
Proof.
  intros st. eexists. split.
  - apply create_coordinates_ok; grid_conditions.
  - apply (edge_pairs_probe_with_opponent half _ st).
    apply create_coordinates_ok; grid_conditions.
Defined.

(** X7: a coordinate above the diagonal and its mirror image
    (1 - y, 1 - x) get the same probe; what tells them apart is the
    opponent: the first plays the dual, the mirror image the original
    player. *)
Theorem create_jossann_mirror {Strategy} (probe : PlayerClass Strategy)
    (x y : Qc) :
  1 < x + y →
  create_jossann (x, y) probe = create_jossann (1 - y, 1 - x) probe
  ∧ create_edges [(x, y); (1 - y, 1 - x)] = [(1, 2); (0, 3)]%nat.
Proof.
  intros H.
  assert (¬ 1 < 1 - y + (1 - x)) as Hm by (apply Qcle_not_lt; qc_lra).
  split.
  - by rewrite create_jossann_folded, create_jossann_unfolded.
  - rewrite create_edges_imap. simpl. unfold edge_for. simpl.
    by rewrite bool_decide_eq_true_2, bool_decide_eq_false_2.
Qed.

Lemma create_jossann_mirror_witness :
  1 < three_quarters + half
  ∧ create_jossann (three_quarters, half) (Base 0%nat)
    = create_jossann (1 - half, 1 - three_quarters) (Base 0%nat).
Proof.
  split; [qc_eval|].
  apply (create_jossann_mirror (Base 0%nat) three_quarters half). qc_eval.
Defined.

(** ** Dictionaries: assignment and lookup *)

Section DictMore.
Context {K : Type} `{EqDecision K} {V : Type}.
Implicit Types (d items : list (K * V)) (k : K) (v : V).

Lemma dict_lookup_setitem d k v k' :
  dict_lookup (dict_setitem d k v) k'
  = if decide (k' = k) then Some v else dict_lookup d k'.
Proof.
  induction d as [|[k0 v0] d IH]; simpl.
  - by destruct (decide (k' = k)).
  - destruct (decide (k = k0)) as [->|Hne]; simpl.
    + by destruct (decide (k' = k0)).
    + rewrite IH. destruct (decide (k' = k0)) as [->|]; [|done].
      by rewrite decide_False by done.
Qed.

Lemma dict_setitem_elem_of d k v k' :
  k' ∈ (dict_setitem d k v).*1 ↔ k' = k ∨ k' ∈ d.*1.
Proof.
  induction d as [|[k0 v0] d IH]; simpl.
  - rewrite list_elem_of_singleton. split; [by left|].
    intros [?|Hin]; [done|]. by apply elem_of_nil in Hin.
  - destruct (decide (k = k0)) as [->|Hne]; simpl.
    + rewrite !elem_of_cons. tauto.
    + rewrite !elem_of_cons, IH. tauto.
Qed.

Lemma dict_setitem_NoDup d k v : NoDup (d.*1) → NoDup ((dict_setitem d k v).*1).
Proof.
  induction d as [|[k0 v0] d IH]; simpl; intros Hnd.
  - apply NoDup_singleton.
  - apply NoDup_cons in Hnd as [Hk0 Hnd].
    destruct (decide (k = k0)) as [->|Hne]; simpl.
    + by apply NoDup_cons.
    + apply NoDup_cons. split; [|by apply IH].
      rewrite dict_setitem_elem_of. intros [?|?]; [congruence|done].
Qed.

Lemma dict_fold_NoDup items d :
  NoDup (d.*1) →
  NoDup ((fold_left (λ d kv, dict_setitem d kv.1 kv.2) items d).*1).
Proof.
  revert d. induction items as [|[k v] items IH]; intros d Hnd; simpl; [done|].
  apply IH. by apply dict_setitem_NoDup.
Qed.

Lemma dict_fold_elem_of items d k :
  k ∈ (fold_left (λ d kv, dict_setitem d kv.1 kv.2) items d).*1
  ↔ k ∈ d.*1 ∨ k ∈ items.*1.
Proof.
  revert d. induction items as [|[k0 v0] items IH]; intros d; simpl.
  - split; [by left|]. intros [?|Hin]; [done|]. by apply elem_of_nil in Hin.
  - rewrite IH, dict_setitem_elem_of, elem_of_cons. tauto.
Qed.

Lemma dict_fold_lookup_other items d k :
  k ∉ items.*1 →
  dict_lookup (fold_left (λ d kv, dict_setitem d kv.1 kv.2) items d) k
  = dict_lookup d k.
Proof.
  revert d. induction items as [|[k0 v0] items IH]; intros d Hk; simpl; [done|].
  simpl in Hk. apply not_elem_of_cons in Hk as [Hne Hk].
  rewrite IH by done. rewrite dict_lookup_setitem. by rewrite decide_False.
Qed.

(** The value of a key is the one of its last item. *)
Lemma dict_lookup_last items1 items2 k v :
  k ∉ items2.*1 → dict_lookup (dict (items1 ++ (k, v) :: items2)) k = Some v.
Proof.
  intros Hk. unfold dict. rewrite fold_left_app. simpl.
  rewrite dict_fold_lookup_other by done.
  rewrite dict_lookup_setitem. by rewrite decide_True.
Qed.

Lemma dict_NoDup items : NoDup ((dict items).*1).
Proof. apply dict_fold_NoDup. constructor. Qed.

Lemma dict_elem_of items k : k ∈ (dict items).*1 ↔ k ∈ items.*1.
Proof.
  unfold dict. rewrite dict_fold_elem_of. split; [|by right].
  intros [Hin|?]; [|done]. by apply elem_of_nil in Hin.
Qed.
End DictMore.

(** ** The reduction on any lists *)

Lemma fst_zip_take {A B} (l : list A) (k : list B) :
  (zip l k).*1 = take (length k) l.
Proof.
  revert k. induction l as [|a l IH]; intros [|b k]; simpl; try done.
  by rewrite IH.
Qed.

Section ReductionMore.
Context {Interaction Score : Type}.
Variable compute_final_score_per_turn : Interaction → Score.
Variable np_mean : list Score → Qc.
Implicit Types (interactions : gmap (nat * nat) (list Interaction))
               (coordinates : list (Qc * Qc)) (edges : list (nat * nat)).

Local Abbreviation score_of :=
  (edge_score compute_final_score_per_turn np_mean).

Lemma generate_data_items interactions coordinates edges :
  (∀ edge, edge ∈ edges → is_Some (interactions !! edge)) →
  generate_data compute_final_score_per_turn np_mean
    interactions coordinates edges
  = Ok (dict (zip coordinates
                (map (λ edge, score_of (default [] (interactions !! edge)))
                     edges))).
Proof.
  intros Hall. unfold generate_data.
  by rewrite (edge_scores_ok compute_final_score_per_turn np_mean).
Qed.

(** X8: on any lists, with the records of every edge present,
    [generate_data] returns a mapping whose keys are distinct and are the
    coordinates that have an edge at their position (the lists are zipped,
    so the longer one is cut); a coordinate that occurs at several
    positions keeps the score of the last one. *)
Theorem generate_data_last_wins interactions coordinates edges :
  (∀ edge, edge ∈ edges → is_Some (interactions !! edge)) →
  ∃ d,
    generate_data compute_final_score_per_turn np_mean
      interactions coordinates edges = Ok d
    ∧ NoDup (dict_keys d)
    ∧ (∀ c, c ∈ dict_keys d ↔ c ∈ take (length edges) coordinates)
    ∧ (∀ i c e records,
         coordinates !! i = Some c → edges !! i = Some e →
         interactions !! e = Some records →
         (∀ j, (i < j)%nat → (j < length edges)%nat →
               coordinates !! j ≠ Some c) →
         dict_getitem d c = Ok (score_of records)).
Proof.
  intros Hall. eexists. split; [by apply generate_data_items|].
  set (scores := map _ edges).
  assert (length scores = length edges) as Hlen
    by (unfold scores; by rewrite length_map).
  assert ((zip coordinates scores).*1 = take (length edges) coordinates)
    as Hkeys.
  { by rewrite <-Hlen, fst_zip_take. }
  split; [apply dict_NoDup|]. split.
  - intros c. unfold dict_keys. by rewrite dict_elem_of, Hkeys.
  - intros i c e records Hc He Hr Hlast.
    assert (zip coordinates scores !! i = Some (c, score_of records)) as Hi.
    { apply lookup_zip_with_Some. exists c, (score_of records).
      split; [done|]. split; [done|].
      unfold scores. rewrite list_lookup_fmap, He. simpl. by rewrite Hr. }
    rewrite <-(take_drop_middle _ _ _ Hi). unfold dict_getitem.
    rewrite dict_lookup_last; [done|].
    intros [[c' v'] [Heq Hin]]%list_elem_of_fmap. simpl in Heq. subst c'.
    apply list_elem_of_lookup in Hin as [j Hj].
    rewrite lookup_drop in Hj.
    apply lookup_zip_with_Some in Hj as (c' & v'' & [= <- <-] & Hcj & Hvj).
    apply (Hlast (S i + j)%nat); [lia| |done].
    rewrite <-Hlen. by eapply lookup_lt_Some.
Qed.
End ReductionMore.

(** The coordinate (0, 0) twice: the mapping has the score of the second
    edge. *)
Lemma generate_data_last_wins_witness :
  (∀ edge, edge ∈ [(0, 2); (0, 3)]%nat → is_Some (example_interactions !! edge))
  ∧ ∃ d,
      generate_data id mean_of example_interactions
        [(0, 0); (0, 0)] [(0, 2); (0, 3)]%nat = Ok d
      ∧ NoDup (dict_keys d)
      ∧ dict_getitem d (0, 0) = Ok (mean_of [Qc_of_nat 3]).
Proof.
  assert (∀ edge, edge ∈ [(0, 2); (0, 3)]%nat
                  → is_Some (example_interactions !! edge)) as Hall.
  { intros edge Hin.
    apply elem_of_cons in Hin as [->|Hin]; [by eexists|].
    apply list_elem_of_singleton in Hin as ->. by eexists. }
  split; [exact Hall|].
  destruct (generate_data_last_wins id mean_of example_interactions
              [(0, 0); (0, 0)] [(0, 2); (0, 3)]%nat Hall)
    as (d & Hd & Hnd & _ & Hlast).
  exists d. split; [exact Hd|]. split; [exact Hnd|].
  apply (Hlast 1%nat (0, 0) (0, 3)%nat [Qc_of_nat 3]); try reflexivity.
  intros j Hj Hj'. simpl in Hj'. lia.
Defined.

(** ** More runs of [fingerprint] *)

Lemma mapM_result_Forall2 {A B} (f : A → result B) (l : list A) (k : list B) :
  mapM f l = Ok k ↔ Forall2 (λ a b, f a = Ok b) l k.
Proof.
  revert k. induction l as [|a l IH]; intros k.
  - split.
    + intros [= <-]. constructor.
    + intros Hk. by inv Hk.
  - rewrite mapM_result_cons. split.
    + destruct (f a) as [b|e] eqn:Hb; [|done].
      destruct (mapM f l) as [bs|e] eqn:Hbs; [|done].
      intros [= <-]. constructor; [done|]. by apply IH.
    + intros Hk. inv Hk. rewrite H1.
      rewrite (proj2 (IH _)) by done. reflexivity.
Qed.

Lemma mapM_result_raise {A B} (f : A → result B) (l : list A) (e : exn) :
  (∀ a, a ∈ l → f a = Raise e ∨ ∃ b, f a = Ok b) →
  (∃ a, a ∈ l ∧ f a = Raise e) →
  mapM f l = Raise e.
Proof.
  induction l as [|a l IH]; intros Hall (a' & Hin & Ha').
  - by apply elem_of_nil in Hin.
  - rewrite mapM_result_cons.
    destruct (Hall a) as [Ha|[b Hb]]; [by left|by rewrite Ha|].
    rewrite Hb. apply elem_of_cons in Hin as [->|Hin]; [congruence|].
    rewrite IH; [reflexivity| |by exists a'].
    intros a0 Ha0. apply Hall. by right.
Qed.

Section Runs.
Context {Strategy Interaction Score : Type}.
Variable compute_final_score_per_turn : Interaction → Score.
Variable np_mean : list Score → Qc.
Variable tournament_refused :
  list (Player Strategy) → nat → nat → list (nat * nat) → option exn.
Variable engine :
  list (Player Strategy) → list (nat * nat) → nat → nat → option nat →
  result (gmap (nat * nat) (list Interaction)).
Variable read_back :
  gmap (nat * nat) (list Interaction) →
  result (gmap (nat * nat) (list Interaction)).
Implicit Types (st : @State Strategy Interaction) (turns repetitions : nat)
               (stp : Qc) (processes : option nat).

Local Abbreviation reduce :=
  (generate_data compute_final_score_per_turn np_mean).
Local Abbreviation score_of :=
  (edge_score compute_final_score_per_turn np_mean).
Local Abbreviation scores_of interactions edges :=
  (map (λ edge, score_of (default [] (interactions !! edge))) edges).

Lemma create_edges_length (coords : list (Qc * Qc)) :
  length (create_edges coords) = length coords.
Proof. by rewrite create_edges_imap, length_imap. Qed.

(** On distinct coordinates, as many as the edges, the mapping is the
    coordinates zipped with the scores. *)
Lemma reduce_zip (interactions : gmap (nat * nat) (list Interaction))
    (coords : list (Qc * Qc)) (edges : list (nat * nat)) :
  (∀ edge, edge ∈ edges → is_Some (interactions !! edge)) →
  NoDup coords → length coords = length edges →
  reduce interactions coords edges
  = Ok (zip coords (scores_of interactions edges)).
Proof.
  intros Hall Hnd Hlen.
  rewrite (generate_data_items compute_final_score_per_turn np_mean) by done.
  rewrite dict_distinct; [done|].
  rewrite fst_zip; [done|]. rewrite length_map. lia.
Qed.

Lemma zip_getitem (interactions : gmap (nat * nat) (list Interaction))
    (coords : list (Qc * Qc)) (edges : list (nat * nat)) i c e records :
  NoDup coords → length coords = length edges →
  coords !! i = Some c → edges !! i = Some e →
  interactions !! e = Some records →
  dict_getitem (zip coords (scores_of interactions edges)) c
  = Ok (score_of records).
Proof.
  intros Hnd Hlen Hc He Hr. unfold dict_getitem.
  rewrite (dict_lookup_distinct _ i c (score_of records)); [done| |].
  - rewrite fst_zip; [done|]. rewrite length_map. lia.
  - apply lookup_zip_with_Some. exists c, (score_of records).
    split; [done|]. split; [done|].
    rewrite list_lookup_fmap, He. simpl. by rewrite Hr.
Qed.

(** A mapping that [generate_data] returned has a score for every
    coordinate that has an edge at its position. *)
Lemma generate_data_covers (interactions : gmap (nat * nat) (list Interaction))
    (coords : list (Qc * Qc)) (edges : list (nat * nat))
    (d : list (Qc * Qc * Qc)) :
  reduce interactions coords edges = Ok d →
  (length coords ≤ length edges)%nat →
  ∀ c, c ∈ coords → is_Some (dict_lookup d c).
Proof.
  unfold generate_data. intros Hd Hlen c Hc.
  destruct (mapM _ edges) as [scores|e] eqn:Hscores; [|done].
  injection Hd as <-.
  apply mapM_result_Forall2, Forall2_length in Hscores.
  apply dict_lookup_is_Some, dict_elem_of.
  rewrite fst_zip; [done|lia].
Qed.

(** X9: on the grid of a step and its edges, with the records of every
    edge present, [generate_data] returns a mapping whose keys in order are
    the coordinates of the grid, and the score of the coordinate at
    position i is the one computed from the records of the edge with
    target i + 2. *)
Theorem generate_data_on_grid (stp : Qc) (coords : list (Qc * Qc))
    (interactions : gmap (nat * nat) (list Interaction)) :
  create_coordinates stp = Ok coords →
  (∀ edge, edge ∈ create_edges coords → is_Some (interactions !! edge)) →
  ∃ d,
    reduce interactions coords (create_edges coords) = Ok d
    ∧ dict_keys d = coords
    ∧ ∀ i c, coords !! i = Some c →
        ∃ e records,
          create_edges coords !! i = Some e ∧ e.2 = (i + 2)%nat
          ∧ interactions !! e = Some records
          ∧ dict_getitem d c = Ok (score_of records).
Proof.
  intros Hc Hall.
  pose proof (grid_NoDup stp coords Hc) as Hnd.
  pose proof (create_edges_length coords) as Hlen.
  eexists. split; [by apply reduce_zip|]. split.
  - unfold dict_keys. rewrite fst_zip; [done|]. rewrite length_map. lia.
  - intros i c Hi.
    destruct (create_edges coords !! i) as [e|] eqn:He.
    2:{ apply lookup_ge_None in He. apply lookup_lt_Some in Hi. lia. }
    destruct (Hall e) as [records Hr]; [by eapply list_elem_of_lookup_2|].
    exists e, records. split; [done|]. split.
    + rewrite create_edges_imap, list_lookup_imap, Hi in He.
      by injection He as <-.
    + split; [done|]. by eapply zip_getitem.
Qed.

(** The choice of the store with no filename: it returns, and assigns no
    attribute. *)
Lemma choose_store_no_filename (on_windows : bool) st :
  ∃ outputfile st1,
    choose_store on_windows None st = (Ok outputfile, st1)
    ∧ self st1 = self st
    ∧ (on_windows = true → outputfile = None).
Proof.
  destruct on_windows.
  - eexists _, _. split; [apply choose_store_memory|done].
  - eexists _, _.
    split; [apply choose_store_temporary; [done|by left]|done].
Qed.

(** A call with no filename that returns. *)
Lemma fingerprint_success (on_windows : bool) turns repetitions stp processes
    st (coords : list (Qc * Qc))
    (records : gmap (nat * nat) (list Interaction)) :
  create_coordinates stp = Ok coords →
  tournament_refused (roster_of st coords) turns repetitions
    (create_edges coords) = None →
  engine (roster_of st coords) (create_edges coords) turns repetitions processes
  = Ok records →
  (on_windows = false → read_back records = Ok records) →
  (∀ edge, edge ∈ create_edges coords → is_Some (records !! edge)) →
  ∃ st',
    fingerprint compute_final_score_per_turn np_mean on_windows
      tournament_refused engine read_back
      turns repetitions stp processes None st
    = (Ok (zip coords (scores_of records (create_edges coords))), st').
Proof.
  intros Hc Hn He Hread Hall.
  pose proof (grid_NoDup stp coords Hc) as Hnd.
  pose proof (create_edges_length coords) as Hlen.
  pose proof (reduce_zip records coords (create_edges coords) Hall Hnd
                (eq_sym Hlen)) as Hd.
  rewrite fingerprint_run.
  destruct (choose_store_no_filename on_windows st)
    as (outputfile & st1 & -> & Hself & Hmem).
  rewrite after_store_run, Hc.
  replace (roster_of st1 coords) with (roster_of st coords)
    by (unfold roster_of; by rewrite Hself).
  rewrite Hn. cbv zeta. rewrite He.
  assert (records_read read_back (file_name <$> outputfile) records
          = Ok records) as ->.
  { destruct on_windows; [by rewrite Hmem|].
    destruct outputfile; simpl; [by apply Hread|done]. }
  rewrite Hd. by eexists.
Qed.

(** X10: a call of [fingerprint] with no filename, on a step that has a
    grid, with a tournament that is accepted and an engine that returns
    the records of every edge (read back as they were written, where they
    go through a file), returns the mapping from the coordinates of the
    grid, in order, to their scores, and leaves it in [self.data], with
    [self.step], [self.coordinates] and [self.interactions] assigned; this
    on either kind of host. *)
Theorem fingerprint_returns_data (on_windows : bool) turns repetitions stp
    processes st (coords : list (Qc * Qc))
    (records : gmap (nat * nat) (list Interaction)) :
  create_coordinates stp = Ok coords →
  tournament_refused (roster_of st coords) turns repetitions
    (create_edges coords) = None →
  engine (roster_of st coords) (create_edges coords) turns repetitions processes
  = Ok records →
  (on_windows = false → read_back records = Ok records) →
  (∀ edge, edge ∈ create_edges coords → is_Some (records !! edge)) →
  ∃ d st',
    fingerprint compute_final_score_per_turn np_mean on_windows
      tournament_refused engine read_back
      turns repetitions stp processes None st
    = (Ok d, st')
    ∧ dict_keys d = coords
    ∧ (∀ i c e recs, coords !! i = Some c → create_edges coords !! i = Some e →
         records !! e = Some recs → dict_getitem d c = Ok (score_of recs))
    ∧ data (self st') = Some d
    ∧ step (self st') = Some stp
    ∧ coordinates (self st') = Some coords
    ∧ interactions (self st') = Some records.
Proof.
  intros Hc Hn He Hread Hall.
  pose proof (grid_NoDup stp coords Hc) as Hnd.
  pose proof (create_edges_length coords) as Hlen.
  pose proof (reduce_zip records coords (create_edges coords) Hall Hnd
                (eq_sym Hlen)) as Hd.
  rewrite fingerprint_run.
  destruct (choose_store_no_filename on_windows st)
    as (outputfile & st1 & -> & Hself & Hmem).
  rewrite after_store_run, Hc.
  replace (roster_of st1 coords) with (roster_of st coords)
    by (unfold roster_of; by rewrite Hself).
  rewrite Hn. cbv zeta. rewrite He.
  assert (records_read read_back (file_name <$> outputfile) records
          = Ok records) as ->.
  { destruct on_windows; [by rewrite Hmem|].
    destruct outputfile; simpl; [by apply Hread|done]. }
  rewrite Hd. eexists _, _. split; [done|]. split.
  { unfold dict_keys. rewrite fst_zip; [done|]. rewrite length_map. lia. }
  split; [intros i c e recs Hi Hei Hr; by eapply zip_getitem|].
  by destruct outputfile.
Qed.

(** X12: in memory ([on_windows] and no filename) [fingerprint] opens,
    creates and writes no file: the open file objects and the contents of
    the files are as before, and the only thing that may have happened is
    the play of the tournament. *)
Theorem fingerprint_in_memory_no_file turns repetitions stp processes st :
  let run := fingerprint compute_final_score_per_turn np_mean true
      tournament_refused engine read_back
      turns repetitions stp processes None st in
  opened (world run.2) = opened (world st)
  ∧ contents (world run.2) = contents (world st)
  ∧ next_tmp (world run.2) = next_tmp (world st)
  ∧ (log (world run.2) = log (world st)
     ∨ log (world run.2) = log (world st) ++ [Played None]).
Proof.
  intros run. subst run.
  rewrite fingerprint_run, choose_store_memory, after_store_run.
  destruct (create_coordinates stp) as [coords|e]; [|by repeat split; left].
  destruct (tournament_refused _ _ _ _); [by repeat split; left|].
  cbv zeta. destruct (engine _ _ _ _ _); [|repeat split; by right].
  simpl. destruct (reduce _ _ _); repeat split; by right.
Qed.

(** X13: when the tournament is accepted and the engine fails,
    [fingerprint] raises the engine's error with the object half
    assigned: [self.coordinates] and [self.step] are those of the failed
    call, [self.data] and [self.interactions] still those of before. *)
Theorem fingerprint_engine_failure_state (on_windows : bool) turns repetitions
    stp processes st (coords : list (Qc * Qc)) (e : exn) :
  create_coordinates stp = Ok coords →
  tournament_refused (roster_of st coords) turns repetitions
    (create_edges coords) = None →
  engine (roster_of st coords) (create_edges coords) turns repetitions processes
  = Raise e →
  let run := fingerprint compute_final_score_per_turn np_mean on_windows
      tournament_refused engine read_back
      turns repetitions stp processes None st in
  run.1 = Raise e
  ∧ coordinates (self run.2) = Some coords
  ∧ step (self run.2) = Some stp
  ∧ data (self run.2) = data (self st)
  ∧ interactions (self run.2) = interactions (self st).
Proof.
  intros Hc Hn He run. subst run. rewrite fingerprint_run.
  destruct (choose_store_no_filename on_windows st)
    as (outputfile & st1 & -> & Hself & _).
  rewrite after_store_run, Hc.
  replace (roster_of st1 coords) with (roster_of st coords)
    by (unfold roster_of; by rewrite Hself).
  rewrite Hn. cbv zeta. rewrite He. simpl. by rewrite Hself.
Qed.

(** X14: with a filename the host accepts, the file is opened first, the
    engine's records go to it and are read back, and the result is the
    reduction of what was read.  When the reduction returns, the file has
    been closed, and it is still on the host; when it raises, the file is
    still open as [fingerprint] exits. *)
Theorem fingerprint_named_file (on_windows : bool) turns repetitions stp
    processes st (name : string) (coords : list (Qc * Qc))
    (written records : gmap (nat * nat) (list Interaction)) :
  name ≠ "" → name ∉ unwritable (world st) →
  create_coordinates stp = Ok coords →
  tournament_refused (roster_of st coords) turns repetitions
    (create_edges coords) = None →
  engine (roster_of st coords) (create_edges coords) turns repetitions processes
  = Ok written →
  read_back written = Ok records →
  let run := fingerprint compute_final_score_per_turn np_mean on_windows
      tournament_refused engine read_back
      turns repetitions stp processes (Some name) st in
  run.1 = reduce records coords (create_edges coords)
  ∧ contents (world run.2) !! name = Some written
  ∧ match run.1 with
    | Ok _ =>
        opened (world run.2) = opened (world st)
        ∧ log (world run.2)
          = log (world st)
            ++ [Opened name; Played (Some name); ReadBack name; Closed name]
    | Raise _ =>
        opened (world run.2) = name :: opened (world st)
        ∧ log (world run.2)
          = log (world st) ++ [Opened name; Played (Some name); ReadBack name]
    end.
Proof.
  intros Hne Hw Hc Hn He Hread run. subst run.
  rewrite fingerprint_run, choose_store_named by done.
  rewrite bool_decide_eq_false_2 by done.
  rewrite after_store_run, Hc.
  change (roster_of (with_output_file name st)) with (roster_of st).
  rewrite Hn. cbv zeta. rewrite He. simpl. rewrite Hread.
  destruct (reduce records coords (create_edges coords)) as [d|e]; simpl.
  - rewrite decide_True by done.
    split; [done|]. split; [apply lookup_insert_eq|]. split; [done|].
    by rewrite <-!app_assoc.
  - split; [done|]. split; [apply lookup_insert_eq|]. split; [done|].
    by rewrite <-app_assoc.
Qed.

(** X15: an empty filename counts as no filename, except that it never
    selects the run in memory: on either kind of host the call does what
    the call with no filename does where temporary files are used. *)
Theorem fingerprint_empty_filename (on_windows : bool) turns repetitions stp
    processes st :
  fingerprint compute_final_score_per_turn np_mean on_windows
      tournament_refused engine read_back
      turns repetitions stp processes (Some "") st
  = fingerprint compute_final_score_per_turn np_mean false
      tournament_refused engine read_back
      turns repetitions stp processes None st.
Proof.
  rewrite !fingerprint_run.
  rewrite (choose_store_temporary on_windows (Some "") st)
    by (first [done | by right]).
  by rewrite (choose_store_temporary false None st)
    by (first [done | by left]).
Qed.
End Runs.

(** ** Rendering what [fingerprint] left *)

Section RenderGrid.
Context {Strategy Interaction : Type}.
Implicit Types (s : @AshlockFingerprint Strategy Interaction).

(** X16: when [self.data] has no score for one of [self.coordinates],
    [plot] raises [KeyError], whatever the number of coordinates. *)
Theorem plot_missing_score s col_map (stp : Qc) (coords : list (Qc * Qc))
    (d : list (Qc * Qc * Qc)) (c : Qc * Qc) :
  step s = Some stp → stp ≠ 0 → coordinates s = Some coords →
  data s = Some d → c ∈ coords → dict_lookup d c = None →
  plot s col_map = Raise KeyError.
Proof.
  intros Hstep Hne Hcoords Hdata Hin Hc. unfold plot. rewrite Hstep. simpl.
  rewrite decide_False by done. rewrite Hcoords. simpl.
  unfold ordered_data. rewrite Hdata.
  rewrite (mapM_result_raise _ _ KeyError); [done| |].
  - intros a _. simpl. unfold dict_getitem.
    destruct (dict_lookup d a); [right; by eexists|by left].
  - exists c. split; [done|]. simpl. unfold dict_getitem. by rewrite Hc.
Qed.
End RenderGrid.

Section RunThenPlot.
Context {Strategy Interaction Score : Type}.
Variable compute_final_score_per_turn : Interaction → Score.
Variable np_mean : list Score → Qc.
Variable tournament_refused :
  list (Player Strategy) → nat → nat → list (nat * nat) → option exn.
Variable engine :
  list (Player Strategy) → list (nat * nat) → nat → nat → option nat →
  result (gmap (nat * nat) (list Interaction)).
Variable read_back :
  gmap (nat * nat) (list Interaction) →
  result (gmap (nat * nat) (list Interaction)).
Implicit Types (st : @State Strategy Interaction) (turns repetitions : nat)
               (stp : Qc) (processes : option nat) (col_map : string).

(** X17: [plot] after a [fingerprint] that returned, whatever the step,
    the host and the filename: the object has its step, its coordinates
    and a score for each of them, and [plot] raises [TypeError]; no figure
    comes out of the data that [fingerprint] left. *)
Theorem fingerprint_then_plot (on_windows : bool) turns repetitions stp
    processes (filename : option string) st col_map
    (d : list (Qc * Qc * Qc)) st' :
  fingerprint compute_final_score_per_turn np_mean on_windows
    tournament_refused engine read_back
    turns repetitions stp processes filename st = (Ok d, st') →
  data (self st') = Some d
  ∧ (∃ coords, create_coordinates stp = Ok coords
               ∧ coordinates (self st') = Some coords
               ∧ ∀ c, c ∈ coords → is_Some (dict_lookup d c))
  ∧ plot (self st') col_map = Raise TypeError.
Proof.
  intros Hrun.
  destruct (fingerprint_returned _ _ _ _ _ _ _ _ _ _ _ _ _ _ Hrun)
    as (coords & records & Hc & Hd & Hself).
  assert (∀ c, c ∈ coords → is_Some (dict_lookup d c)) as Hall.
  { apply (generate_data_covers compute_final_score_per_turn np_mean
             records coords (create_edges coords)); [done|].
    by rewrite create_edges_length. }
  rewrite Hself. split; [done|]. split; [by exists coords|].
  destruct (create_coordinates_inv stp coords Hc) as [Hne _].
  by apply (plot_float_shape _ col_map stp coords d).
Qed.
End RunThenPlot.

(** ** Instances of the properties above *)

Lemma example_engine_covers (edges : list (nat * nat)) (edge : nat * nat) :
  edge ∈ edges →
  is_Some ((list_to_map (map (λ e, (e, [Qc_of_nat 1])) edges)
            : gmap (nat * nat) (list Qc)) !! edge).
Proof.
  induction edges as [|e edges IH]; intros Hin; [by apply elem_of_nil in Hin|].
  simpl. destruct (decide (e = edge)) as [->|Hne].
  - rewrite lookup_insert_eq. by eexists.
  - rewrite lookup_insert_ne by done. apply IH.
    apply elem_of_cons in Hin as [?|?]; [congruence|done].
Qed.

Lemma generate_data_on_grid_witness :
  ∃ coords d,
    create_coordinates half = Ok coords
    ∧ generate_data id mean_of
        (list_to_map (map (λ e, (e, [Qc_of_nat 1])) (create_edges coords)))
        coords (create_edges coords) = Ok d
    ∧ dict_keys d = coords.
Proof.
  pose proof (create_coordinates_ok half ltac:(grid_conditions)
                ltac:(grid_conditions)) as Hc.
  set (coords := concat _) in Hc.
  destruct (generate_data_on_grid id mean_of half coords
              (list_to_map (map (λ e, (e, [Qc_of_nat 1])) (create_edges coords)))
              Hc (example_engine_covers (create_edges coords)))
    as (d & Hd & Hkeys & _).
  by exists coords, d.
Defined.

Lemma fingerprint_returns_data_witness :
  ∃ coords d st',
    create_coordinates half = Ok coords
    ∧ fingerprint id mean_of false no_refusal example_engine Ok
        10 1 half None None example_state = (Ok d, st')
    ∧ dict_keys d = coords
    ∧ data (self st') = Some d.
Proof.
  pose proof (create_coordinates_ok half ltac:(grid_conditions)
                ltac:(grid_conditions)) as Hc.
  set (coords := concat _) in Hc.
  destruct (fingerprint_returns_data id mean_of no_refusal example_engine Ok
              false 10 1 half None example_state coords _ Hc eq_refl eq_refl
              (λ _, eq_refl)
              (example_engine_covers (create_edges coords)))
    as (d & st' & Hrun & Hkeys & _ & Hdata & _).
  by exists coords, d, st'.
Defined.

Lemma fingerprint_engine_failure_state_witness :
  ∃ coords,
    create_coordinates half = Ok coords
    ∧ let run := fingerprint id mean_of false no_refusal failing_engine Ok
                   10 1 half None None example_state in
      run.1 = Raise (EngineError "play failed")
      ∧ coordinates (self run.2) = Some coords
      ∧ step (self run.2) = Some half
      ∧ data (self run.2) = None.
Proof.
  pose proof (create_coordinates_ok half ltac:(grid_conditions)
                ltac:(grid_conditions)) as Hc.
  set (coords := concat _) in Hc.
  exists coords. split; [exact Hc|].
  destruct (fingerprint_engine_failure_state id mean_of no_refusal
              failing_engine Ok false
              10 1 half None example_state coords (EngineError "play failed")
              Hc eq_refl eq_refl) as (Hr & Hcoords & Hstep & Hdata & _).
  by repeat split.
Defined.

Lemma fingerprint_named_file_witness :
  ∃ coords written,
    create_coordinates half = Ok coords
    ∧ let run := fingerprint id mean_of false no_refusal example_engine Ok
                   10 1 half None (Some "records.csv") example_state in
      contents (world run.2) !! "records.csv" = Some written
      ∧ opened (world run.2) = []
      ∧ log (world run.2)
        = [Opened "records.csv"; Played (Some "records.csv");
           ReadBack "records.csv"; Closed "records.csv"].
Proof.
  pose proof (create_coordinates_ok half ltac:(grid_conditions)
                ltac:(grid_conditions)) as Hc.
  set (coords := concat _) in Hc.
  eexists coords, _. split; [exact Hc|].
  destruct (fingerprint_named_file id mean_of no_refusal example_engine Ok
              false 10 1 half
              None example_state "records.csv" coords _ _
              ltac:(discriminate) (not_elem_of_nil _) Hc eq_refl eq_refl
              eq_refl)
    as (Hres & Hcontents & Hrest).
  split; [exact Hcontents|].
  rewrite (generate_data_items id mean_of) in Hres
    by apply example_engine_covers.
  rewrite Hres in Hrest. exact Hrest.
Defined.

Lemma plot_missing_score_witness :
  (three_quarters, half) ∈ example_coordinates ++ [(three_quarters, half)]
  ∧ dict_lookup example_data (three_quarters, half) = None
  ∧ plot (example_object (example_coordinates ++ [(three_quarters, half)]))
      "seismic" = Raise KeyError.
Proof.
  assert ((three_quarters, half)
          ∈ example_coordinates ++ [(three_quarters, half)]) as Hin.
  { apply elem_of_app. right. by left. }
  split; [exact Hin|]. split; [reflexivity|].
  by apply (plot_missing_score
              (example_object (example_coordinates ++ [(three_quarters, half)]))
              "seismic" half
              (example_coordinates ++ [(three_quarters, half)])
              example_data (three_quarters, half)).
Defined.

Lemma fingerprint_then_plot_witness :
  ∃ d st',
    fingerprint id mean_of false no_refusal example_engine Ok
      10 1 half None None example_state = (Ok d, st')
    ∧ plot (self st') "seismic" = Raise TypeError.
Proof.
  pose proof (create_coordinates_ok half ltac:(grid_conditions)
                ltac:(grid_conditions)) as Hc.
  set (coords := concat _) in Hc.
  destruct (fingerprint_success id mean_of no_refusal example_engine Ok
              false 10 1 half None example_state coords _ Hc eq_refl eq_refl
              (λ _, eq_refl)
              (example_engine_covers (create_edges coords)))
    as (st' & Hrun).
  eexists _, st'. split; [exact Hrun|].
  apply (fingerprint_then_plot id mean_of no_refusal example_engine Ok
           false 10 1 half None None example_state "seismic" _ st' Hrun).
Defined.
